(** * blm-parser: a shallow embedding of [blm-parser/parser.js]

    The module parses Rightmove [.blm] feeds: a [#HEADER#] section that
    declares the field separator [EOF] and the record separator [EOR], a
    [#DEFINITION#] section naming the fields and a [#DATA#] section holding
    the records.

    Modelling conventions.
    - A JavaScript string is a [string]: a sequence of 8-bit code units, read
      as the Latin-1 range of UTF-16.  White space and case mapping are the
      ECMAScript ones restricted to that range.
    - A plain object used as a dictionary ([{}] filled by [acc[k] = v]) is a
      [gmap string V]; the one key that an assignment does not store,
      ["__proto__"], is written out in [js_set].
    - A promise is the state it settles in ([Settled]); an executor is a
      computation over that state which may throw ([Exec]).  [resolve] and
      [reject] only act on a pending promise, and neither ends the executor.
    - The calls received by the user's callback are a list of [Delivery].
    - A run is one call of [parseBlmFile] with no other call in flight: the
      module-level slot [doneCallback] holds the callback of that call. *)

From Stdlib Require Import Ascii String Arith Lia.
From stdpp Require Import base option list gmap strings.

Open Scope string_scope.

(** ** Strings of the run-time library *)

Module JSString.

Definition eqb_ascii (a b : ascii) : bool := Ascii.eqb a b.

(** Code units of the 8-bit range that ECMAScript counts as white space
    (TAB, LF, VT, FF, CR, SP, NBSP); the class [\s] and [trim] share it. *)
Definition isWhiteSpace (c : ascii) : bool :=
  let n := nat_of_ascii c in
  (((9 <=? n) && (n <=? 13)) || (n =? 32) || (n =? 160))%nat.

Fixpoint trimStart (s : string) : string :=
  match s with
  | EmptyString => EmptyString
  | String c s' => if isWhiteSpace c then trimStart s' else s
  end.

(** [trimEnd] keeps a character when it is not white space or when
    something is kept after it. *)
Fixpoint trimEnd (s : string) : string :=
  match s with
  | EmptyString => EmptyString
  | String c s' =>
      match trimEnd s' with
      | EmptyString => if isWhiteSpace c then EmptyString else String c EmptyString
      | t => String c t
      end
  end.

(** [String.prototype.trim]. *)
Definition trim (s : string) : string := trimEnd (trimStart s).

(** [s.startsWith(p)]. *)
Fixpoint startsWith (p s : string) : bool :=
  match p, s with
  | EmptyString, _ => true
  | String a p', String b s' => eqb_ascii a b && startsWith p' s'
  | String _ _, EmptyString => false
  end.

(** The rest of [s] after the prefix [p], when [p] is a prefix. *)
Fixpoint stripPrefix (p s : string) : option string :=
  match p, s with
  | EmptyString, _ => Some s
  | String a p', String b s' =>
      if eqb_ascii a b then stripPrefix p' s' else None
  | String _ _, EmptyString => None
  end.

(** [s.endsWith(p)]. *)
Fixpoint endsWith (p s : string) : bool :=
  match s with
  | EmptyString => String.eqb p EmptyString
  | String _ s' => String.eqb p s || endsWith p s'
  end.

(** The scan of [String.prototype.split] for a non-empty separator.  The
    head of the result is the piece under construction; [skip] counts the
    code units of a matched separator that are still to be passed over. *)
Fixpoint splitScan (sep : string) (skip : nat) (s : string) : list string :=
  match s with
  | EmptyString => [EmptyString]
  | String c s' =>
      match skip with
      | S k => splitScan sep k s'
      | O =>
          if startsWith sep s
          then EmptyString :: splitScan sep (String.length sep - 1) s'
          else match splitScan sep 0 s' with
               | piece :: pieces => String c piece :: pieces
               | [] => [String c EmptyString]
               end
      end
  end.

Fixpoint codeUnits (s : string) : list string :=
  match s with
  | EmptyString => []
  | String c s' => String c EmptyString :: codeUnits s'
  end.

(** [s.split(sep)] for a separator that is a string or [undefined]
    ([None]): no separator gives the whole string, the empty separator
    gives the code units (and nothing for the empty string). *)
Definition split (sep : option string) (s : string) : list string :=
  match sep with
  | None => [s]
  | Some EmptyString => codeUnits s
  | Some sep => splitScan sep 0 s
  end.

(** Upper-casing of one code unit: [a-z] and the accented Latin-1 letters
    move down by 32, sharp s becomes ["SS"].  The micro sign and y with
    diaeresis have upper-case forms outside the 8-bit range and are left
    as they are. *)
Definition upperUnit (c : ascii) : string :=
  let n := nat_of_ascii c in
  if (((97 <=? n) && (n <=? 122))
      || ((224 <=? n) && (n <=? 254) && negb (n =? 247)))%nat
  then String (ascii_of_nat (n - 32)) EmptyString
  else if (n =? 223)%nat then "SS"
  else String c EmptyString.

(** [String.prototype.toUpperCase]. *)
Fixpoint toUpperCase (s : string) : string :=
  match s with
  | EmptyString => EmptyString
  | String c s' => upperUnit c +:+ toUpperCase s'
  end.

Definition isQuote (c : ascii) : bool :=
  eqb_ascii c "'"%char || eqb_ascii c (ascii_of_nat 34).

(** The effect of the [replace] of getHeader, whose pattern is a quote
    character (single or double) at the start or at the end of the string,
    replaced globally by nothing: one quote character is removed at the
    start, and one at the end of what is left. *)
Definition stripLeadingQuote (s : string) : string :=
  match s with
  | EmptyString => EmptyString
  | String c s' => if isQuote c then s' else s
  end.

Fixpoint stripTrailingQuote (s : string) : string :=
  match s with
  | EmptyString => EmptyString
  | String c s' =>
      match s' with
      | EmptyString => if isQuote c then EmptyString else s
      | String _ _ => String c (stripTrailingQuote s')
      end
  end.

Definition unquote (s : string) : string :=
  stripTrailingQuote (stripLeadingQuote s).

(** Occurrence of a code unit in a string. *)
Fixpoint hasUnit (c : ascii) (s : string) : bool :=
  match s with
  | EmptyString => false
  | String a s' => eqb_ascii c a || hasUnit c s'
  end.

(** A string that is empty or starts with a code unit that is not white
    space. *)
Definition startsClean (s : string) : Prop :=
  match s with
  | EmptyString => True
  | String c _ => isWhiteSpace c = false
  end.

End JSString.

(** ** The three section patterns

    The patterns of getHeader, getDefinitions and getData all have the
    shape: an opening literal ([#HEADER#], [#DEFINITION#], [#DATA#]), one
    capturing group that takes any code units (lazy in the first two, greedy
    in the third), a closing literal ([#], [#], [#END#]). *)

Module Regex.
Import JSString.

(** The lazy group: the shortest stretch followed by [close]. *)
Fixpoint lazyUntil (close s : string) : option string :=
  if startsWith close s then Some EmptyString
  else match s with
       | EmptyString => None
       | String c s' => String c <$> lazyUntil close s'
       end.

(** The greedy group: the longest stretch followed by [close]. *)
Fixpoint greedyUntil (close s : string) : option string :=
  match s with
  | EmptyString => if startsWith close s then Some EmptyString else None
  | String c s' =>
      match greedyUntil close s' with
      | Some g => Some (String c g)
      | None => if startsWith close s then Some EmptyString else None
      end
  end.

(** [RegExp.prototype.exec] for such a pattern, reduced to its group: the
    match is tried at every start position from left to right; [None] is
    the [null] of a failed match. *)
Fixpoint exec (opening : string) (group : string -> option string)
    (s : string) : option string :=
  match stripPrefix opening s ≫= group with
  | Some g => Some g
  | None =>
      match s with
      | EmptyString => None
      | String _ s' => exec opening group s'
      end
  end.

Definition headerPattern : string -> option string :=
  exec "#HEADER#" (lazyUntil "#").
Definition definitionPattern : string -> option string :=
  exec "#DEFINITION#" (lazyUntil "#").
Definition dataPattern : string -> option string :=
  exec "#DATA#" (greedyUntil "#END#").

End Regex.

(** ** Errors, promises and executors *)

Module Promise.

Inductive ErrorKind := PlainError | TypeError | ReferenceError.

(** An error object: its constructor and its [message]. *)
Record JSError := mkError { errorKind : ErrorKind; message : string }.

(** The state of a promise once the job queue has run dry. *)
Inductive Settled (R : Type) :=
| Pending
| Fulfilled (value : R)
| Rejected (reason : JSError).
Arguments Pending {R}.
Arguments Fulfilled {R} value.
Arguments Rejected {R} reason.

(** How a piece of code ends: normally, by a [throw], or suspended at an
    [await] of a promise that never settles. *)
Inductive Completion (A : Type) :=
| Normal (a : A)
| Throw (e : JSError)
| Suspended.
Arguments Normal {A} a.
Arguments Throw {A} e.
Arguments Suspended {A}.

(** Code that runs against a state [S] and may throw. *)
Definition Code (S A : Type) : Type := S -> S * Completion A.

Definition ret {S A} (a : A) : Code S A := fun st => (st, Normal a).

Definition throw {S A} (e : JSError) : Code S A := fun st => (st, Throw e).

Definition bind {S A B} (c : Code S A) (k : A -> Code S B) : Code S B :=
  fun st =>
    match c st with
    | (st', Normal a) => k a st'
    | (st', Throw e) => (st', Throw e)
    | (st', Suspended) => (st', Suspended)
    end.

#[global] Instance code_ret {S} : MRet (Code S) := @ret S.
#[global] Instance code_bind {S} : MBind (Code S) :=
  fun A B k c => bind c k.

(** The body of a promise executor: the state is the promise under
    construction. *)
Abbreviation Exec R := (Code (Settled R)).

(** Settling applies to a pending promise only. *)
Definition settleWith {R} (outcome : Settled R) (st : Settled R) : Settled R :=
  match st with
  | Pending => outcome
  | _ => st
  end.

(** [resolve(v)] and [reject(e)] settle a pending promise, do nothing to a
    settled one, and return to the caller in both cases. *)
Definition resolve {R} (v : R) : Exec R unit :=
  fun st => (settleWith (Fulfilled v) st, Normal tt).

Definition reject {R} (e : JSError) : Exec R unit :=
  fun st => (settleWith (Rejected e) st, Normal tt).

(** A step whose completion does not depend on the state. *)
Definition complete {S A} (c : Completion A) : Code S A := fun st => (st, c).

(** [new Promise(executor)] for a synchronous executor: an exception that
    escapes the executor rejects the promise if it is still pending. *)
Definition newPromise {R} (executor : Exec R unit) : Settled R :=
  match executor Pending with
  | (Pending, Throw e) => Rejected e
  | (st, _) => st
  end.

End Promise.


(** ** Values that reach the module from its caller *)

Module Value.
Import Promise.

(** The values the caller may pass as file handle.  A number is given by
    the text that prints it, which is also its conversion to a string but
    for negative zero, printed [-0] and converted to [0].  An object that
    inherits from [Object.prototype] is given by what its conversion to a
    string does: it returns [shown] ([VObject]) or throws [thrown]
    ([VThrowingObject]).  [VBareObject] is an object without prototype,
    which has no conversion. *)
Inductive JSValue :=
| VUndefined
| VNull
| VBoolean (b : bool)
| VNumber (printed : string)
| VString (s : string)
| VStringObject (s : string)
| VSymbol (description : string)
| VObject (shown : string)
| VThrowingObject (thrown : JSError)
| VBareObject.

(** [typeof v]. *)
Definition typeOf (v : JSValue) : string :=
  match v with
  | VUndefined => "undefined"
  | VNull => "object"
  | VBoolean _ => "boolean"
  | VNumber _ => "number"
  | VString _ => "string"
  | VStringObject _ => "object"
  | VSymbol _ => "symbol"
  | VObject _ => "object"
  | VThrowingObject _ => "object"
  | VBareObject => "object"
  end.

Definition isUndefined (v : JSValue) : bool :=
  match v with VUndefined => true | _ => false end.

(** [v.hasOwnProperty('length')], on the values where the call is made. *)
Definition hasOwnLength (v : JSValue) : bool :=
  match v with
  | VString _ | VStringObject _ => true
  | _ => false
  end.

(** [v.length] of a string, and no length otherwise. *)
Definition lengthOf (v : JSValue) : option nat :=
  match v with
  | VString s | VStringObject s => Some (String.length s)
  | _ => None
  end.

(** [v.split(sep)]: strings have the method, [undefined] and [null] have no
    properties, and the other values modelled here have no [split]. *)
Definition callSplit (v : JSValue) (sep : string) : Completion (list string) :=
  match v with
  | VString s | VStringObject s => Normal (JSString.split (Some sep) s)
  | VUndefined =>
      Throw (mkError TypeError
               "Cannot read properties of undefined (reading 'split')")
  | VNull =>
      Throw (mkError TypeError
               "Cannot read properties of null (reading 'split')")
  | _ => Throw (mkError TypeError "fileHandle.split is not a function")
  end.

(** The string conversion used by a template literal.  It throws for a
    symbol, for an object whose conversion method throws and for an object
    that has none. *)
Definition toString (v : JSValue) : Completion string :=
  match v with
  | VUndefined => Normal "undefined"
  | VNull => Normal "null"
  | VBoolean true => Normal "true"
  | VBoolean false => Normal "false"
  | VNumber printed =>
      Normal (if String.eqb printed "-0" then "0" else printed)
  | VString s | VStringObject s => Normal s
  | VSymbol _ =>
      Throw (mkError TypeError "Cannot convert a Symbol value to a string")
  | VObject shown => Normal shown
  | VThrowingObject thrown => Throw thrown
  | VBareObject =>
      Throw (mkError TypeError "Cannot convert object to primitive value")
  end.

(** The error of reading a property of [null] (the text is the engine's). *)
Definition nullGroupError : JSError :=
  mkError TypeError "Cannot read properties of null (reading '1')".

(** [index 1] of the result of [exec]: reading a property of [null]
    throws. *)
Definition group1 {S} (m : option string) : Code S string :=
  match m with
  | Some g => ret g
  | None => throw nullGroupError
  end.

(** [acc[k] = v] on an object literal, for a value [v] that is a string or
    [undefined]: the key [__proto__] reaches the accessor inherited from
    [Object.prototype], which ignores such values; any other key becomes
    (or stays) an own property. *)
Definition js_set {V} (k : string) (v : V) (m : gmap string V) : gmap string V :=
  if decide (k = "__proto__") then m else <[k := v]> m.

(** A value used as a property key: a string is itself, [undefined]
    converts to its name. *)
Definition propertyKey (k : option string) : string :=
  match k with
  | Some s => s
  | None => "undefined"
  end.

End Value.

(** ** The parser module *)

Module Parser.
Import JSString Regex Promise Value.

(** The header object: declared properties, some of them [undefined]. *)
Abbreviation Header := (gmap string (option string)).

(** One data object of the result: field name to raw value. *)
Abbreviation DataObject := (gmap string string).

Definition LF : string := String (ascii_of_nat 10) EmptyString.
Definition DQUOTE : string := String (ascii_of_nat 34) EmptyString.

(** *** The error event and the finishing callback *)

(** The object passed along with an ['error'] event. *)
Record ErrorObj := mkErrorObj { eoMessage : string; eoError : JSError }.

(** One call of the user's callback: [callback(err)] or
    [callback(null, data)]. *)
Inductive Delivery :=
| CallbackError (err : JSError)
| CallbackResult (data : list DataObject).

(** The error handed to the callback: [new Error(message + error.message)]. *)
Definition composite (msg : string) (err : JSError) : JSError :=
  mkError PlainError (msg +:+ message err).

(** The listener registered on [errEmitter] for ['error'].  [doneCallback]
    tells whether the module-level slot holds a callback; without one the
    listener throws and nothing reaches the user. *)
Definition errorListener (doneCallback : bool) (errorObj : ErrorObj) : list Delivery :=
  if doneCallback
  then [CallbackError (composite (eoMessage errorObj) (eoError errorObj))]
  else [].

(** [errEmitter.emit(event, arg)]: only the event named ['error'] has a
    listener. *)
Definition emit (doneCallback : bool) (event : JSValue) (arg : option ErrorObj)
    : list Delivery :=
  match event, arg with
  | VString name, Some errorObj =>
      if String.eqb name "error" then errorListener doneCallback errorObj else []
  | _, _ => []
  end.

(** What a stage function hands back: the promise it returns, and the error
    object its own [catch] handler emits when that promise is rejected. *)
Record Stage (R : Type) := mkStage {
  promise : Settled R;
  emitted : option ErrorObj
}.
Arguments mkStage {R} promise emitted.
Arguments promise {R} s.
Arguments emitted {R} s.

(** [p.catch(err => errEmitter.emit('error', {message, error: err}))]. *)
Definition withCatch {R} (msg : string) (p : Settled R) : Stage R :=
  mkStage p
    match p with
    | Rejected err => Some (mkErrorObj msg err)
    | _ => None
    end.

(** The same for a handler whose message is built when the handler runs:
    when building it throws, the handler ends before [emit] is called, and
    the exception stays in the promise that [catch] returns, which nobody
    holds. *)
Definition withCatchBuilding {R} (msg : Completion string) (p : Settled R)
    : Stage R :=
  mkStage p
    match p, msg with
    | Rejected err, Normal m => Some (mkErrorObj m err)
    | _, _ => None
    end.

(** *** The messages of the stages *)

Definition validationMessage : string :=
  "ERROR: Error occurred during file handle vaidation" +:+ LF.
(** The message of the read stage, for a handle converted to [shown]. *)
Definition readMessage (shown : string) : string :=
  "ERROR: Error occurred when trying to read file stream at path: "
    +:+ DQUOTE +:+ shown +:+ DQUOTE +:+ LF.
(** The template literal that builds it from the handle. *)
Definition streamMessage (fileHandle : JSValue) : Completion string :=
  match toString fileHandle with
  | Normal shown => Normal (readMessage shown)
  | Throw e => Throw e
  | Suspended => Suspended
  end.
Definition headerMessage : string :=
  "ERROR: Error occurred when trying to parse header section of file" +:+ LF.
Definition definitionsMessage : string :=
  "ERROR: Error occurred when trying to parse definition section of file" +:+ LF.
Definition dataMessage : string :=
  "ERROR: Error occurred when trying to parse data section of file." +:+ LF.

Definition headerDataIncorrect : JSError :=
  mkError PlainError
    "ERROR: Error occurred when trying to parse definition section of file. Header data incorrect".
Definition headerDataUndefined : JSError :=
  mkError PlainError
    "ERROR: Error occurred when trying to parse data section of file. Header data undefined or incorrect".
Definition definitionDataUndefined : JSError :=
  mkError PlainError
    "ERROR: Error occurred when trying to parse data section of file. Definition data undefined".
Definition lengthMismatch : JSError :=
  mkError PlainError
    "ERROR: Error occurred when trying to parse data section of file. Data array has different length than field array".
Definition invalidFileHandle : JSError :=
  mkError PlainError "File handle entered to module is not valid".

(** *** validateFileHandle *)

Definition validateExecutor (fileHandle : JSValue) : Exec bool unit :=
  (if isUndefined fileHandle
      || negb (String.eqb (typeOf fileHandle) "string")
      || negb (hasOwnLength fileHandle)
      || bool_decide (lengthOf fileHandle = Some 0)
   then resolve false
   else mret tt);;
  splitOnFileExtension ← complete (callSplit fileHandle ".");
  if (2 <=? length splitOnFileExtension)%nat
     && (0 <? String.length
               (fold_left (fun accum curr => accum +:+ curr)
                  (removelast splitOnFileExtension) EmptyString))%nat
     && bool_decide (toUpperCase <$> last splitOnFileExtension = Some "BLM")
  then resolve true
  else resolve false.

Definition validateFileHandle (fileHandle : JSValue) : Stage bool :=
  withCatch validationMessage
    (newPromise (validateExecutor fileHandle)).

(** *** getHeader *)

(** The callback of the [reduce] over the header lines. *)
Definition headerLine (accumulator : Header) (current : string) : Header :=
  if negb (String.eqb (trim current) EmptyString)
  then
    let parts :=
      (fun elem => unquote (trim elem)) <$> split (Some ":") (trim current) in
    let property := parts !! 0%nat in
    let value := parts !! 1%nat in
    js_set (propertyKey property) value accumulator
  else accumulator.

Definition headerExecutor (fileStr : string) : Exec Header unit :=
  headerStr ← group1 (headerPattern fileStr);
  let lines := split (Some LF) headerStr in
  let headerData := fold_left headerLine lines ∅ in
  resolve headerData.

Definition getHeader (fileStr : string) : Stage Header :=
  withCatch headerMessage
    (newPromise (headerExecutor fileStr)).

(** *** Reading the header *)

(** [header.k] on a header object: an own property, or [undefined]. *)
Definition getProperty (h : Header) (k : string) : option string :=
  h !! k ≫= id.

(** [header.k] where [header] itself may be [undefined]. *)
Definition readField {S} (header : option Header) (k : string)
    : Code S (option string) :=
  match header with
  | Some h => mret (getProperty h k)
  | None =>
      throw (mkError TypeError
               ("Cannot read properties of undefined (reading '" +:+ k +:+ "')"))
  end.

(** [header === undefined || header.EOF === undefined ||
     header.EOR === undefined]. *)
Definition headerIncomplete (header : option Header) : bool :=
  match header with
  | None => true
  | Some h =>
      bool_decide (getProperty h "EOF" = None)
      || bool_decide (getProperty h "EOR" = None)
  end.

(** *** getDefinitions *)

Definition definitionsExecutor (fileStr : string) (header : option Header)
    : Exec (list string) unit :=
  (if headerIncomplete header
   then reject headerDataIncorrect
   else mret tt);;
  definitionsStr ← group1 (definitionPattern fileStr);
  EOF ← readField header "EOF";
  let definitions := trim <$> split EOF definitionsStr in
  EOR ← readField header "EOR";
  let definitions :=
    if bool_decide (last definitions = EOR)
    then removelast definitions
    else definitions in
  resolve definitions.

Definition getDefinitions (fileStr : string) (header : option Header)
    : Stage (list string) :=
  withCatch definitionsMessage
    (newPromise (definitionsExecutor fileStr header)).

(** *** getData *)

(** [array.reduce((accumulator, current, currInd) => ..., init)]. *)
Fixpoint reduceFrom {A B} (f : B -> A -> nat -> B) (currInd : nat)
    (l : list A) (accumulator : B) : B :=
  match l with
  | [] => accumulator
  | current :: l' => reduceFrom f (S currInd) l' (f accumulator current currInd)
  end.

(** The non-empty elements of [data], in order. *)
Definition validDataOf (data : list string) : list string :=
  fold_left
    (fun accumulator current =>
       if (0 <? String.length current)%nat
       then (accumulator ++ [current])%list
       else accumulator)
    data [].

(** The values of one record: the split on [EOF] without its last
    element. *)
Definition dataArrOf (EOF : option string) (elem : string) : list string :=
  removelast (split EOF elem).

(** The object built from the values of one record: value [currInd] is
    stored under [definitions[currInd]]. *)
Definition dataObjOf (definitions : list string) (dataArr : list string)
    : DataObject :=
  reduceFrom
    (fun accumulator current currInd =>
       js_set (propertyKey (definitions !! currInd)) current accumulator)
    0 dataArr ∅.

(** [definitions.length] and [definitions[i]] need [definitions] to be an
    array. *)
Definition readDefinitions {S} (definitions : option (list string))
    : Code S (list string) :=
  match definitions with
  | Some defs => mret defs
  | None =>
      throw (mkError TypeError
               "Cannot read properties of undefined (reading 'length')")
  end.

(** The callback of the [forEach] over the valid records; its result is the
    object it pushes onto [dataObjects], so that the loop is the monadic map
    of this callback over [validData]. *)
Definition dataElem (header : option Header) (definitions : option (list string))
    (elem : string) : Exec (list DataObject) DataObject :=
  EOF ← readField header "EOF";
  let dataArr := dataArrOf EOF elem in
  defs ← readDefinitions definitions;
  (if negb (length dataArr =? length defs)%nat
   then reject lengthMismatch
   else mret tt);;
  mret (dataObjOf defs dataArr).

Definition dataExecutor (fileStr : string) (header : option Header)
    (definitions : option (list string)) : Exec (list DataObject) unit :=
  (if headerIncomplete header
   then reject headerDataUndefined
   else if bool_decide (definitions = None)
   then reject definitionDataUndefined
   else mret tt);;
  dataStr ← group1 (dataPattern fileStr);
  EOR ← readField header "EOR";
  let data := trim <$> split EOR dataStr in
  let validData := validDataOf data in
  dataObjects ← mapM (dataElem header definitions) validData;
  resolve dataObjects.

Definition getData (fileStr : string) (header : option Header)
    (definitions : option (list string)) : Stage (list DataObject) :=
  withCatch dataMessage
    (newPromise (dataExecutor fileStr header definitions)).

(** *** streamInData and parseBlmFile *)

(** What reading a path through [fs.createReadStream] comes to. *)
Inductive StreamOutcome :=
| StreamEnd (contents : string)
| StreamError
| CreateThrows (e : JSError).

(** The argument passed as finishing callback: a plain function, or
    anything else. *)
Inductive CallbackArg := PlainFunction | NotAPlainFunction.

(** What one call of [parseBlmFile] comes to: the calls received by the
    callback, in order, and the promise the async function returns. *)
Record Run := mkRun {
  delivered : list Delivery;
  returned : Settled unit
}.

(** The state an async executor runs against: the promise under
    construction and the calls made to the callback so far. *)
Abbreviation AsyncState := (Settled (list DataObject) * list Delivery)%type.

(** A step of the executor that acts on the promise only. *)
Definition onPromise {A} (c : Exec (list DataObject) A) : Code AsyncState A :=
  fun st =>
    let '(p', r) := c (fst st) in ((p', snd st), r).

(** [await stage]: the stage's [catch] handler has run by the time the
    executor resumes; a rejected promise makes the [await] throw. *)
Definition await {R} (doneCallback : bool) (stage : Stage R) : Code AsyncState R :=
  fun st =>
    let log :=
      (snd st ++ emit doneCallback (VString "error") (emitted stage))%list in
    match promise stage with
    | Fulfilled v => ((fst st, log), Normal v)
    | Rejected e => ((fst st, log), Throw e)
    | Pending => ((fst st, log), Suspended)
    end.

Section WithFileSystem.

(** The file system, as far as the module sees it. *)
Variable readStream : JSValue -> StreamOutcome.

Definition streamExecutor (fileHandle : JSValue) : Exec string unit :=
  match readStream fileHandle with
  | CreateThrows e => throw e
  | StreamError => reject (mkError PlainError EmptyString)
  | StreamEnd contents => resolve contents
  end.

Definition streamInData (fileHandle : JSValue) : Stage string :=
  withCatchBuilding (streamMessage fileHandle)
    (newPromise (streamExecutor fileHandle)).

(** The async executor of [parsePromise]. *)
Definition parseExecutor (doneCallback : bool) (fileHandle : JSValue)
    : Code AsyncState unit :=
  fileHandleIsValid ← await doneCallback (validateFileHandle fileHandle);
  (if negb fileHandleIsValid
   then onPromise (reject invalidFileHandle)
   else mret tt);;
  fileStr ← await doneCallback (streamInData fileHandle);
  header ← await doneCallback (getHeader fileStr);
  definitions ← await doneCallback (getDefinitions fileStr (Some header));
  data ← await doneCallback (getData fileStr (Some header) (Some definitions));
  onPromise (resolve data).

(** [parseBlmFile].  An exception inside the async executor rejects the
    promise that the executor itself returns, which nobody holds:
    [parsePromise] keeps the state the executor left it in.  What the host
    does with that unhandled rejection is outside the model. *)
Definition parseBlmFile (fileHandle : JSValue) (finishCallback : CallbackArg)
    : Run :=
  match finishCallback with
  | NotAPlainFunction =>
      mkRun [] (Rejected (mkError ReferenceError "reject is not defined"))
  | PlainFunction =>
      let doneCallback := true in
      let st := fst (parseExecutor doneCallback fileHandle (Pending, [])) in
      let settledLog :=
        match fst st with
        | Fulfilled data => [CallbackResult data]
        | Rejected err => emit doneCallback (VObject "[object Object]") None
        | Pending => []
        end in
      mkRun (snd st ++ settledLog)%list (Fulfilled tt)
  end.

End WithFileSystem.

(** *** What the stages compute, named for the statements below *)

(** The list [getDefinitions] resolves with. *)
Definition definitionsOf (h : Header) (definitionsStr : string) : list string :=
  let definitions := trim <$> split (getProperty h "EOF") definitionsStr in
  if bool_decide (last definitions = getProperty h "EOR")
  then removelast definitions
  else definitions.

(** The arity test of one record. *)
Definition arityOk (EOF : option string) (defs : list string) (elem : string)
    : bool :=
  (length (dataArrOf EOF elem) =? length defs)%nat.

(** The record candidates of a data section that are not empty. *)
Definition validDataIn (h : Header) (dataStr : string) : list string :=
  validDataOf (trim <$> split (getProperty h "EOR") dataStr).

(** The step of the [reduce] in [dataObjOf]. *)
Definition storeAt (definitions : list string)
    (accumulator : DataObject) (current : string) (currInd : nat) : DataObject :=
  js_set (propertyKey (definitions !! currInd)) current accumulator.

(** The single call of the callback after a stage has failed. *)
Definition failure (msg : string) (e : JSError) : list Delivery :=
  [CallbackError (composite msg e)].

(** The boolean that [validateFileHandle] resolves with. *)
Definition isValid (fileHandle : JSValue) : bool :=
  match promise (validateFileHandle fileHandle) with
  | Fulfilled b => b
  | _ => false
  end.

End Parser.

(** ** Concrete feeds and file systems *)

Module Samples.
Import Promise Value Parser.

(** A text made of the given lines, each ended by a line feed. *)
Definition lines (l : list string) : string :=
  fold_right (fun line rest => line +:+ LF +:+ rest) EmptyString l.

(** The feed of the scenario: the definition line ends with the record
    separator alone. *)
Definition scenarioFile : string :=
  lines [ "#HEADER#"; "EOF:|"; "EOR:;";
          "#DEFINITION#"; "name|address|price;";
          "#DATA#"; "Alice|123 Rd|100000|;"; "#END#" ].

(** The same feed with the definition line ended as the format has it, by
    the field separator and then the record separator. *)
Definition terminatedFile : string :=
  lines [ "#HEADER#"; "EOF:|"; "EOR:;";
          "#DEFINITION#"; "name|address|price|;";
          "#DATA#"; "Alice|123 Rd|100000|;"; "#END#" ].

(** A feed with three fields whose only record has two values. *)
Definition shortRecordFile : string :=
  lines [ "#HEADER#"; "EOF:|"; "EOR:;";
          "#DEFINITION#"; "name|address|price|;";
          "#DATA#"; "Alice|123 Rd|;"; "#END#" ].

(** A feed whose header declares no separator and that has no data
    section. *)
Definition noDataNoDelimiterFile : string :=
  lines [ "#HEADER#"; "Version : 3";
          "#DEFINITION#"; "name|address|;"; "#" ].

(** A feed whose header has a line without a colon. *)
Definition colonlessHeaderFile : string :=
  lines [ "#HEADER#"; "Version 3"; "EOF:|"; "EOR:;";
          "#DEFINITION#"; "name|;";
          "#DATA#"; "Alice|;"; "#END#" ].

(** A feed whose definition line names the same field twice. *)
Definition duplicateNamesFile : string :=
  lines [ "#HEADER#"; "EOF:|"; "EOR:;";
          "#DEFINITION#"; "ref|ref|;";
          "#DATA#"; "1|2|;"; "#END#" ].

(** A feed whose record lacks the field separator before the record
    separator. *)
Definition unterminatedRecordFile : string :=
  lines [ "#HEADER#"; "EOF:|"; "EOR:;";
          "#DEFINITION#"; "name|address|;";
          "#DATA#"; "Alice|123 Rd|100000;"; "#END#" ].

(** A header line with two colons. *)
Definition datedHeaderFile : string :=
  lines [ "#HEADER#"; "EOF:|"; "EOR:;"; "Generated : '02-Nov 12:30'";
          "#DEFINITION#"; "name|;";
          "#DATA#"; "Alice|;"; "#END#" ].

(** How recent versions of Node print a primitive value inside the text of
    an exception: in full up to 28 code units, otherwise its first 25
    followed by three dots. *)
Definition abridged (inspected : string) : string :=
  if (String.length inspected <=? 28)%nat
  then inspected
  else substring 0 25 inspected +:+ "...".

(** The exception of [createReadStream] for a handle that is no path; the
    text is Node's, and [received] is how it describes the handle. *)
Definition notAPath (received : string) : StreamOutcome :=
  CreateThrows
    (mkError TypeError
       ("The " +:+ DQUOTE +:+ "path" +:+ DQUOTE
          +:+ " argument must be of type string or an instance of Buffer or URL."
          +:+ " Received " +:+ received)).

(** A file system with one readable file.  A handle that is not a string
    makes [createReadStream] throw; [VObject] and [VThrowingObject] stand
    here for objects built by [Object], which are neither Buffers nor
    URLs. *)
Definition onDisk (path contents : string) (fileHandle : JSValue) : StreamOutcome :=
  match fileHandle with
  | VString p => if String.eqb p path then StreamEnd contents else StreamError
  | VUndefined => notAPath "undefined"
  | VNull => notAPath "null"
  | VBoolean true => notAPath "type boolean (true)"
  | VBoolean false => notAPath "type boolean (false)"
  | VNumber printed => notAPath ("type number (" +:+ abridged printed +:+ ")")
  | VStringObject _ => notAPath "an instance of String"
  | VSymbol description =>
      notAPath
        ("type symbol (" +:+ abridged ("Symbol(" +:+ description +:+ ")") +:+ ")")
  | VObject _ | VThrowingObject _ => notAPath "an instance of Object"
  | VBareObject => notAPath "[Object: null prototype] {}"
  end.

End Samples.

(** ** Vocabulary for statements about texts *)

Module Feed.
Import JSString Promise Value Parser.

(** A string all of whose code units are white space. *)
Fixpoint allWhiteSpace (s : string) : bool :=
  match s with
  | EmptyString => true
  | String c s' => isWhiteSpace c && allWhiteSpace s'
  end.

(** The pieces [ps], each one followed by the code unit [c]: the text of a
    definition line or of a record, whose fields are each ended by the
    field separator. *)
Definition joinEnded (c : ascii) (ps : list string) : string :=
  fold_right (fun p rest => p +:+ String c rest) EmptyString ps.

(** The text of a data section: every record, its fields ended by [eof],
    is ended by [eor] and followed by the white space [gap]. *)
Definition dataText (eof eor : ascii) (gap : string) (rows : list (list string))
    : string :=
  fold_right
    (fun row rest => joinEnded eof row +:+ String eor (gap +:+ rest))
    EmptyString rows.

(** A record that survives the trimming of its text unchanged: it has a
    first value, and that value does not start with white space. *)
Definition cleanRow (row : list string) : Prop :=
  match row with
  | [] => False
  | v :: _ => startsClean v
  end.

(** A text that starts with white space, as a section whose marker stands
    on a line of its own does. *)
Definition startsBlank (s : string) : bool :=
  match s with
  | EmptyString => false
  | String c _ => isWhiteSpace c
  end.

(** The text of a definition section: a line feed, the field names each
    ended by [eof], then [eor] and a line feed. *)
Definition definitionSection (eof eor : ascii) (names : list string) : string :=
  LF +:+ joinEnded eof names +:+ String eor LF.

(** The text of a data section: a line feed, then one line per record. *)
Definition dataSection (eof eor : ascii) (rows : list (list string)) : string :=
  LF +:+ dataText eof eor LF rows.

(** A whole feed: the three markers, each followed by its section, the end
    marker and whatever follows it. *)
Definition feedText (headerText : string) (eof eor : ascii)
    (names : list string) (rows : list (list string)) (tail : string) : string :=
  "#HEADER#" +:+ headerText
  +:+ "#DEFINITION#" +:+ definitionSection eof eor names
  +:+ "#DATA#" +:+ dataSection eof eor rows
  +:+ "#END#" +:+ tail.

(** The property that a header line declares: none for a line that is
    blank once trimmed; otherwise the first piece of the trimmed line cut at
    its colons, trimmed and stripped of quotes, as [getHeader] takes it. *)
Definition declared (current : string) : option string :=
  if String.eqb (trim current) EmptyString
  then None
  else
    Some (propertyKey
            (((fun elem => unquote (trim elem))
                <$> split (Some ":") (trim current)) !! 0%nat)).

(** A string without the occurrences of a code unit. *)
Fixpoint withoutUnit (c : ascii) (s : string) : string :=
  match s with
  | EmptyString => EmptyString
  | String a s' =>
      if eqb_ascii c a then withoutUnit c s' else String a (withoutUnit c s')
  end.

(** The spellings of the extension that validation accepts. *)
Definition blmSpellings : list string :=
  ["blm"; "blM"; "bLm"; "bLM"; "Blm"; "BlM"; "BLm"; "BLM"].

(** A feed whose header tries to declare [__proto__]. *)
Definition protoHeaderFile : string :=
  Samples.lines [ "#HEADER#"; "__proto__:polluted"; "EOF:|"; "EOR:;";
                  "#DEFINITION#"; "name|;";
                  "#DATA#"; "Alice|;"; "#END#" ].

(** A feed whose header declares EOF twice. *)
Definition redeclaredHeaderFile : string :=
  Samples.lines [ "#HEADER#"; "EOF:^"; "EOR:;"; "EOF:|"; "Version:3";
                  "#DEFINITION#"; "name|;";
                  "#DATA#"; "Alice|;"; "#END#" ].

(** A feed whose header and data sections hold white space only. *)
Definition blankSectionsFile : string :=
  Samples.lines [ "#HEADER#"; " "; "#DEFINITION#"; "name|;";
                  "#DATA#"; " "; "#END#" ].

(** A feed with the text of the end marker inside a value. *)
Definition twoEndsFile : string :=
  Samples.lines [ "#HEADER#"; "EOF:|"; "EOR:;";
                  "#DEFINITION#"; "name|;";
                  "#DATA#"; "a#END#|;"; "#END#" ].

(** A feed in the shape the format prescribes, with quoted separators. *)
Definition sampleHeaderText : string :=
  LF +:+ "Version : 3" +:+ LF +:+ "EOF : '^'" +:+ LF +:+ "EOR : '~'" +:+ LF.

Definition sampleFeed : string :=
  feedText sampleHeaderText "^" "~"
    ["AGENT_REF"; "ADDRESS_1"; "PRICE"]
    [ ["X1"; "12 High St"; "100000"]; ["X2"; EmptyString; "250000"] ]
    LF.

End Feed.

(** ** Facts about the string functions *)

Module JSStringFacts.
Import JSString.

Lemma eqb_ascii_true a b : eqb_ascii a b = true <-> a = b.
Proof. unfold eqb_ascii. apply Ascii.eqb_eq. Qed.

Lemma eqb_ascii_refl a : eqb_ascii a a = true.
Proof. by apply eqb_ascii_true. Qed.

Lemma app_nil_l (t : string) : EmptyString +:+ t = t.
Proof. reflexivity. Qed.

Lemma app_cons c (s t : string) : String c s +:+ t = String c (s +:+ t).
Proof. reflexivity. Qed.

Lemma app_empty_r (s : string) : s +:+ EmptyString = s.
Proof. induction s as [|c s IH]; [done | by rewrite app_cons, IH]. Qed.

Lemma app_assoc (a b c : string) : (a +:+ b) +:+ c = a +:+ (b +:+ c).
Proof. induction a as [|x a IH]; [done | by rewrite !app_cons, IH]. Qed.

Lemma app_length (a b : string) :
  String.length (a +:+ b) = (String.length a + String.length b)%nat.
Proof. induction a as [|x a IH]; [done | rewrite app_cons; simpl; by rewrite IH]. Qed.

(** *** Prefixes and suffixes *)

Lemma startsWith_length p s :
  startsWith p s = true -> (String.length p <= String.length s)%nat.
Proof.
  revert s. induction p as [|a p IH]; intros [|b s]; simpl; try lia; try done.
  intros [_ H]%andb_prop. apply IH in H. lia.
Qed.

Lemma startsWith_whole p s :
  startsWith p s = true -> (String.length s <= String.length p)%nat -> s = p.
Proof.
  revert s. induction p as [|a p IH]; intros [|b s]; simpl; try lia; try done.
  intros [Hab H]%andb_prop Hlen. apply eqb_ascii_true in Hab as ->.
  f_equal. apply IH; [done | lia].
Qed.

Lemma endsWith_unfold p c s :
  endsWith p (String c s) = String.eqb p (String c s) || endsWith p s.
Proof. reflexivity. Qed.

Lemma endsWith_self p : endsWith p p = true.
Proof.
  destruct p as [|a p]; [done |].
  by rewrite endsWith_unfold, String.eqb_refl.
Qed.

Lemma endsWith_cons p c s : endsWith p s = true -> endsWith p (String c s) = true.
Proof. rewrite endsWith_unfold. intros ->. apply orb_true_r. Qed.

Lemma endsWith_empty s : endsWith EmptyString s = true.
Proof. induction s as [|c s IH]; [done | by apply endsWith_cons]. Qed.

(** [endsWith] is the suffix relation. *)
Lemma endsWith_suffix p s :
  endsWith p s = true <-> exists pre, s = pre +:+ p.
Proof.
  split.
  - induction s as [|c s IH].
    + simpl. intros ->%String.eqb_eq. by exists EmptyString.
    + rewrite endsWith_unfold. intros [->%String.eqb_eq | H]%orb_prop.
      * by exists EmptyString.
      * destruct (IH H) as [pre ->]. by exists (String c pre).
  - intros [pre ->]. induction pre as [|c pre IH].
    + apply endsWith_self.
    + rewrite app_cons. by apply endsWith_cons.
Qed.

(** *** The split scan *)

Lemma splitScan_nonempty sep k s : splitScan sep k s <> [].
Proof.
  revert k. induction s as [|c s IH]; intros k; simpl; [done |].
  destruct k as [|k]; [| apply IH].
  destruct (startsWith sep (String c s)); [done |].
  by destruct (splitScan sep 0 s).
Qed.

Lemma last_cons_nonempty {A} (x : A) (l : list A) : l <> [] -> last (x :: l) = last l.
Proof. by destruct l. Qed.

(** When the last piece of a scan is empty, the scanned text ends with the
    separator (or ends inside the separator being passed over). *)
Lemma splitScan_last_empty sep s :
  sep <> EmptyString ->
  forall k, last (splitScan sep k s) = Some EmptyString ->
            (String.length s <= k)%nat \/ endsWith sep s = true.
Proof.
  intros Hsep. induction s as [|c s IH]; intros k.
  - intros _. left. simpl. lia.
  - destruct k as [|k]; cbn [splitScan].
    + destruct (startsWith sep (String c s)) eqn:Hpre.
      * rewrite last_cons_nonempty by apply splitScan_nonempty.
        intros [Hlen | Hend]%IH; right.
        -- assert (String c s = sep) as <-.
           { apply startsWith_whole; [done |].
             destruct sep; [done |]. simpl in *. lia. }
           apply endsWith_self.
        -- by apply endsWith_cons.
      * destruct (splitScan sep 0 s) as [|piece pieces] eqn:Hscan; [done |].
        destruct pieces as [|p2 pieces]; [done |].
        change (last (String c piece :: p2 :: pieces)) with (last (p2 :: pieces)).
        intros Hlast. destruct (IH 0%nat) as [Hlen | Hend].
        -- rewrite Hscan. exact Hlast.
        -- destruct s; [done | simpl in Hlen; lia].
        -- right. by apply endsWith_cons.
    + intros [Hlen | Hend]%IH; [left; simpl; lia | right].
      by apply endsWith_cons.
Qed.

Lemma codeUnits_last c s : exists v, last (codeUnits (String c s)) = Some v /\ v <> EmptyString.
Proof.
  revert c. induction s as [|a s IH]; intros c.
  - by exists (String c EmptyString).
  - destruct (IH a) as (v & Hv & Hne). exists v. split; [| done].
    change (codeUnits (String c (String a s)))
      with (String c EmptyString :: codeUnits (String a s)).
    by rewrite last_cons_nonempty.
Qed.

Lemma removelast_last {A} (l : list A) (x : A) :
  last l = Some x -> l = (removelast l ++ [x])%list.
Proof.
  induction l as [|y l IH]; [done |].
  destruct l as [|z l]; [by intros [= ->] |].
  intros H. change (removelast (y :: z :: l)) with (y :: removelast (z :: l)).
  simpl. f_equal. by apply IH.
Qed.

(** A text that is not empty splits into at least one piece; when it does
    not end with the separator, the last piece is not empty. *)
Lemma split_last sep s :
  s <> EmptyString ->
  exists v, split (Some sep) s = (removelast (split (Some sep) s) ++ [v])%list
            /\ (endsWith sep s = false -> v <> EmptyString).
Proof.
  intros Hs. destruct sep as [|a sep].
  - destruct s as [|c s]; [done |].
    destruct (codeUnits_last c s) as (v & Hv & Hne).
    exists v. split; [by apply removelast_last | done].
  - cbn [split]. set (sp := String a sep) in *.
    destruct (last (splitScan sp 0 s)) as [v|] eqn:Hlast.
    + exists v. split; [by apply removelast_last |].
      intros Hend ->.
      destruct (splitScan_last_empty sp s) with (k := 0%nat) as [H | H];
        [done | done | | congruence].
      destruct s; [done | simpl in H; lia].
    + apply last_None in Hlast. by apply splitScan_nonempty in Hlast.
Qed.

(** *** Splitting on a single code unit *)

Lemma splitScan_unit_absent c s :
  hasUnit c s = false -> splitScan (String c EmptyString) 0 s = [s].
Proof.
  induction s as [|a s IH]; simpl; [done |].
  intros [Hca Hs]%orb_false_elim. rewrite Hca. simpl. by rewrite IH.
Qed.

Lemma splitScan_unit_first c p s :
  hasUnit c p = false ->
  splitScan (String c EmptyString) 0 (p +:+ String c s)
  = p :: splitScan (String c EmptyString) 0 s.
Proof.
  induction p as [|a p IH]; rewrite ?app_nil_l, ?app_cons; simpl.
  - intros _. by rewrite eqb_ascii_refl.
  - intros [Hca Hp]%orb_false_elim. rewrite Hca. simpl. by rewrite IH.
Qed.

(** *** Trimming *)

Lemma trimEnd_unfold c s :
  trimEnd (String c s)
  = match trimEnd s with
    | EmptyString => if isWhiteSpace c then EmptyString else String c EmptyString
    | t => String c t
    end.
Proof. reflexivity. Qed.

Lemma trimStart_app_unit c p s :
  isWhiteSpace c = false ->
  trimStart (p +:+ String c s) = trimStart p +:+ String c s.
Proof.
  intros Hc. induction p as [|a p IH]; rewrite ?app_nil_l, ?app_cons; simpl.
  - by rewrite Hc.
  - destruct (isWhiteSpace a); [exact IH | by rewrite app_cons].
Qed.

Lemma trimEnd_unit c r :
  isWhiteSpace c = false -> trimEnd (String c r) = String c (trimEnd r).
Proof. intros Hc. rewrite trimEnd_unfold, Hc. by destruct (trimEnd r). Qed.

Lemma trimEnd_app_unit c s r :
  isWhiteSpace c = false ->
  trimEnd (s +:+ String c r) = s +:+ String c (trimEnd r).
Proof.
  intros Hc. induction s as [|a s IH]; rewrite ?app_nil_l, ?app_cons.
  - by apply trimEnd_unit.
  - rewrite trimEnd_unfold, IH. by destruct s.
Qed.

Lemma trimEnd_idem s : trimEnd (trimEnd s) = trimEnd s.
Proof.
  induction s as [|c s IH]; [done |].
  rewrite trimEnd_unfold. destruct (trimEnd s) as [|a t] eqn:Ht.
  - destruct (isWhiteSpace c) eqn:Hc; [done |].
    by rewrite trimEnd_unfold, Hc.
  - by rewrite trimEnd_unfold, IH.
Qed.

Lemma trimStart_clean s : startsClean (trimStart s).
Proof.
  induction s as [|c s IH]; simpl; [done |].
  by destruct (isWhiteSpace c) eqn:Hc.
Qed.

Lemma trimStart_of_clean s : startsClean s -> trimStart s = s.
Proof. destruct s as [|c s]; simpl; [done | by intros ->]. Qed.

Lemma trimEnd_clean s : startsClean s -> startsClean (trimEnd s).
Proof.
  destruct s as [|c s]; [done |]. simpl. intros Hc.
  rewrite Hc. by destruct (trimEnd s).
Qed.

Lemma trim_idem s : trim (trim s) = trim s.
Proof.
  unfold trim. rewrite (trimStart_of_clean (trimEnd _)).
  - apply trimEnd_idem.
  - apply trimEnd_clean, trimStart_clean.
Qed.

Lemma trim_trimStart s : trim (trimStart s) = trim s.
Proof. unfold trim. by rewrite (trimStart_of_clean _ (trimStart_clean s)). Qed.

Lemma hasUnit_trimStart c s : hasUnit c s = false -> hasUnit c (trimStart s) = false.
Proof.
  induction s as [|a s IH]; simpl; [done |].
  intros [Ha Hs]%orb_false_elim. destruct (isWhiteSpace a); [by apply IH |].
  simpl. by rewrite Ha, Hs.
Qed.

Lemma hasUnit_trimEnd c s : hasUnit c s = false -> hasUnit c (trimEnd s) = false.
Proof.
  induction s as [|a s IH]; [done |].
  intros H. simpl in H. apply orb_false_elim in H as [Ha Hs].
  rewrite trimEnd_unfold.
  specialize (IH Hs). destruct (trimEnd s) as [|b t].
  - destruct (isWhiteSpace a); [done |]. simpl. by rewrite Ha.
  - simpl in *. by rewrite Ha, IH.
Qed.

Lemma hasUnit_trim c s : hasUnit c s = false -> hasUnit c (trim s) = false.
Proof. intros H. by apply hasUnit_trimEnd, hasUnit_trimStart. Qed.

Lemma colon_not_space : isWhiteSpace ":"%char = false.
Proof. reflexivity. Qed.

End JSStringFacts.

(** ** Facts about promises and stages *)

Module StageFacts.
Import JSString Regex Promise Value Parser JSStringFacts.

(** Running an executor step by step. *)
Lemma bind_run {S A B} (c : Code S A) (k : A -> Code S B) st :
  (c ≫= k) st
  = match c st with
    | (st', Normal a) => k a st'
    | (st', Throw e) => (st', Throw e)
    | (st', Suspended) => (st', Suspended)
    end.
Proof. reflexivity. Qed.

Lemma ret_run {S A} (a : A) (st : S) : (mret a : Code S A) st = (st, Normal a).
Proof. reflexivity. Qed.

Lemma resolve_run {R} (v : R) st : resolve v st = (settleWith (Fulfilled v) st, Normal tt).
Proof. reflexivity. Qed.

Lemma reject_run {R} e (st : Settled R) : reject e st = (settleWith (Rejected e) st, Normal tt).
Proof. reflexivity. Qed.

Lemma settleWith_twice {R} (o1 o2 : Settled R) st :
  o1 <> Pending -> settleWith o2 (settleWith o1 st) = settleWith o1 st.
Proof. by destruct st, o1. Qed.

Lemma promise_withCatch {R} msg (p : Settled R) : promise (withCatch msg p) = p.
Proof. reflexivity. Qed.

Lemma emitted_withCatch {R} msg (p : Settled R) :
  emitted (withCatch msg p)
  = match p with Rejected err => Some (mkErrorObj msg err) | _ => None end.
Proof. reflexivity. Qed.

Lemma promise_withCatchBuilding {R} msg (p : Settled R) :
  promise (withCatchBuilding msg p) = p.
Proof. reflexivity. Qed.

(** *** validateFileHandle never rejects *)

(** Runs the straight-line part of an executor, splitting on the tests it
    meets. *)
Ltac step_code :=
  repeat first
    [ rewrite bind_run
    | rewrite resolve_run
    | rewrite reject_run
    | rewrite ret_run
    | progress cbn [ret throw complete]
    | progress cbn beta iota zeta ].

Ltac run_code :=
  repeat first
    [ progress step_code
    | match goal with
      | |- context [(if ?c then _ else _) _] => destruct c
      end ].

Lemma validateExecutor_string s :
  exists b c, validateExecutor (VString s) Pending = (Fulfilled b, c).
Proof.
  unfold validateExecutor.
  cbn [isUndefined typeOf hasOwnLength lengthOf callSplit].
  run_code; by do 2 eexists.
Qed.

Lemma validateExecutor_other v :
  typeOf v <> "string" ->
  exists c, validateExecutor v Pending = (Fulfilled false, c).
Proof.
  intros Hty. unfold validateExecutor. destruct v; try done;
    cbn [isUndefined typeOf hasOwnLength lengthOf callSplit String.eqb
         Ascii.eqb Bool.eqb negb orb];
    run_code; by eexists.
Qed.

Lemma validateFileHandle_not_string v :
  typeOf v <> "string" -> promise (validateFileHandle v) = Fulfilled false.
Proof.
  intros [c Hc]%validateExecutor_other.
  unfold validateFileHandle. rewrite promise_withCatch.
  unfold newPromise. by rewrite Hc.
Qed.

Lemma validateFileHandle_fulfilled v :
  exists b, promise (validateFileHandle v) = Fulfilled b.
Proof.
  destruct (decide (typeOf v = "string")) as [Hty | Hty].
  - destruct v; try done. destruct (validateExecutor_string s) as (b & c & Hc).
    exists b. unfold validateFileHandle. rewrite promise_withCatch.
    unfold newPromise. by rewrite Hc.
  - exists false. by apply validateFileHandle_not_string.
Qed.

Lemma validateFileHandle_quiet v : emitted (validateFileHandle v) = None.
Proof.
  destruct (validateFileHandle_fulfilled v) as [b Hb].
  unfold validateFileHandle in *. rewrite promise_withCatch in Hb.
  by rewrite emitted_withCatch, Hb.
Qed.

(** *** getHeader *)

Lemma getHeader_missing fileStr :
  headerPattern fileStr = None ->
  promise (getHeader fileStr) = Rejected nullGroupError.
Proof.
  intros Hm. unfold getHeader, headerExecutor. rewrite promise_withCatch.
  unfold newPromise. by rewrite bind_run, Hm.
Qed.

Lemma getHeader_present fileStr headerStr :
  headerPattern fileStr = Some headerStr ->
  promise (getHeader fileStr)
  = Fulfilled (fold_left headerLine (split (Some LF) headerStr) ∅).
Proof.
  intros Hm. unfold getHeader, headerExecutor. rewrite promise_withCatch.
  unfold newPromise. by rewrite bind_run, Hm.
Qed.

(** A line without a colon stores [undefined] under the line itself. *)
Lemma headerLine_colonless accumulator current :
  trim current <> EmptyString ->
  hasUnit ":" current = false ->
  headerLine accumulator current
  = js_set (unquote (trim current)) None accumulator.
Proof.
  intros Hne Hc. unfold headerLine.
  destruct (String.eqb_spec (trim current) EmptyString) as [|_]; [done |].
  cbn [negb split].
  rewrite splitScan_unit_absent by by apply hasUnit_trim.
  cbn. by rewrite trim_idem.
Qed.

(** A line with two colons or more stores what stands between the first
    two. *)
Lemma headerLine_two_colons accumulator p v rest :
  hasUnit ":" p = false ->
  hasUnit ":" v = false ->
  headerLine accumulator (p +:+ ":" +:+ v +:+ ":" +:+ rest)
  = js_set (unquote (trim p)) (Some (unquote (trim v))) accumulator.
Proof.
  intros Hp Hv. unfold headerLine.
  change (p +:+ ":" +:+ v +:+ ":" +:+ rest)
    with (p +:+ String ":" (v +:+ String ":" rest)).
  assert (trim (p +:+ String ":" (v +:+ String ":" rest))
          = trimStart p +:+ String ":" (v +:+ String ":" (trimEnd rest))) as ->.
  { unfold trim. rewrite trimStart_app_unit by apply colon_not_space.
    by rewrite !trimEnd_app_unit by apply colon_not_space. }
  assert (String.eqb (trimStart p +:+ String ":" (v +:+ String ":" (trimEnd rest)))
            EmptyString = false) as ->
    by by destruct (trimStart p).
  cbn [negb split].
  rewrite splitScan_unit_first by by apply hasUnit_trimStart.
  rewrite splitScan_unit_first by done.
  cbn. by rewrite trim_trimStart.
Qed.

(** *** getDefinitions *)

(** With an incomplete header the executor rejects at once; what it goes
    on to do with the definition section cannot change that. *)
Lemma definitionsExecutor_incomplete fileStr h :
  headerIncomplete (Some h) = true ->
  exists c, definitionsExecutor fileStr (Some h) Pending
            = (Rejected headerDataIncorrect, c).
Proof.
  intros Hh. unfold definitionsExecutor.
  rewrite bind_run, Hh, reject_run. cbn [settleWith].
  rewrite bind_run. destruct (definitionPattern fileStr); [| by eexists].
  cbn [group1 readField]. run_code; by eexists.
Qed.

Lemma getDefinitions_incomplete fileStr h :
  headerIncomplete (Some h) = true ->
  promise (getDefinitions fileStr (Some h)) = Rejected headerDataIncorrect.
Proof.
  intros [c Hc]%(definitionsExecutor_incomplete fileStr).
  unfold getDefinitions. rewrite promise_withCatch.
  unfold newPromise. by rewrite Hc.
Qed.

Lemma getDefinitions_missing fileStr h :
  headerIncomplete (Some h) = false ->
  definitionPattern fileStr = None ->
  promise (getDefinitions fileStr (Some h)) = Rejected nullGroupError.
Proof.
  intros Hh Hm. unfold getDefinitions, definitionsExecutor.
  rewrite promise_withCatch. unfold newPromise.
  by rewrite bind_run, Hh, ret_run, bind_run, Hm.
Qed.

Lemma getDefinitions_present fileStr h definitionsStr :
  headerIncomplete (Some h) = false ->
  definitionPattern fileStr = Some definitionsStr ->
  promise (getDefinitions fileStr (Some h))
  = Fulfilled (definitionsOf h definitionsStr).
Proof.
  intros Hh Hm. unfold getDefinitions, definitionsExecutor.
  rewrite promise_withCatch. unfold newPromise.
  rewrite bind_run, Hh, ret_run, bind_run, Hm.
  cbn [group1 readField]. unfold definitionsOf. by run_code.
Qed.

(** *** getData *)

Lemma dataElem_run h defs elem st :
  dataElem (Some h) (Some defs) elem st
  = (if arityOk (getProperty h "EOF") defs elem
     then st
     else settleWith (Rejected lengthMismatch) st,
     Normal (dataObjOf defs (dataArrOf (getProperty h "EOF") elem))).
Proof.
  unfold dataElem, arityOk. cbn [readField readDefinitions].
  step_code.
  destruct (length _ =? length defs)%nat; cbn [negb]; by run_code.
Qed.

Lemma mapM_dataElem h defs l st :
  mapM (dataElem (Some h) (Some defs)) l st
  = (if forallb (arityOk (getProperty h "EOF") defs) l
     then st
     else settleWith (Rejected lengthMismatch) st,
     Normal ((fun elem => dataObjOf defs (dataArrOf (getProperty h "EOF") elem))
               <$> l)).
Proof.
  revert st. induction l as [|elem l IH]; intros st; [done |].
  cbn [mapM forallb]. rewrite bind_run, dataElem_run, bind_run, IH.
  rewrite ret_run. f_equal.
  destruct (arityOk _ defs elem); cbn [andb]; [done |].
  destruct (forallb _ l); [done |].
  by apply settleWith_twice.
Qed.

Lemma getData_present fileStr h defs dataStr :
  headerIncomplete (Some h) = false ->
  dataPattern fileStr = Some dataStr ->
  promise (getData fileStr (Some h) (Some defs))
  = if forallb (arityOk (getProperty h "EOF") defs) (validDataIn h dataStr)
    then Fulfilled
           ((fun elem => dataObjOf defs (dataArrOf (getProperty h "EOF") elem))
              <$> validDataIn h dataStr)
    else Rejected lengthMismatch.
Proof.
  intros Hh Hm. unfold getData, dataExecutor.
  rewrite promise_withCatch. unfold newPromise.
  rewrite bind_run, Hh. cbn [bool_decide decide_rel].
  rewrite bool_decide_eq_false_2 by done.
  rewrite ret_run, bind_run, Hm. cbn [group1 readField]. step_code.
  rewrite mapM_dataElem. step_code. fold (validDataIn h dataStr).
  by destruct (forallb _ _).
Qed.

Lemma getData_missing fileStr h defs :
  headerIncomplete (Some h) = false ->
  dataPattern fileStr = None ->
  promise (getData fileStr (Some h) (Some defs)) = Rejected nullGroupError.
Proof.
  intros Hh Hm. unfold getData, dataExecutor.
  rewrite promise_withCatch. unfold newPromise.
  rewrite bind_run, Hh. rewrite bool_decide_eq_false_2 by done.
  by rewrite ret_run, bind_run, Hm.
Qed.

(** A fulfilled getData read a data section all of whose records passed
    the arity test. *)
Lemma getData_fulfilled_inv fileStr h defs data :
  headerIncomplete (Some h) = false ->
  promise (getData fileStr (Some h) (Some defs)) = Fulfilled data ->
  exists dataStr,
    dataPattern fileStr = Some dataStr
    /\ (forall elem, elem ∈ validDataIn h dataStr ->
                     length (dataArrOf (getProperty h "EOF") elem) = length defs)
    /\ data = (fun elem => dataObjOf defs (dataArrOf (getProperty h "EOF") elem))
                <$> validDataIn h dataStr.
Proof.
  intros Hh. destruct (dataPattern fileStr) as [dataStr|] eqn:Hm.
  - rewrite (getData_present _ _ _ _ Hh Hm).
    destruct (forallb _ _) eqn:Hall; [| done].
    intros [= <-]. exists dataStr. split; [done |]. split; [| done].
    intros elem Helem. rewrite forallb_forall in Hall.
    apply list_elem_of_In, Hall in Helem. by apply Nat.eqb_eq in Helem.
  - by rewrite (getData_missing _ _ _ Hh Hm).
Qed.

(** *** Every stage settles *)

Lemma getHeader_settles fileStr : promise (getHeader fileStr) <> Pending.
Proof.
  destruct (headerPattern fileStr) as [headerStr|] eqn:Hm.
  - by rewrite (getHeader_present _ _ Hm).
  - by rewrite (getHeader_missing _ Hm).
Qed.

Lemma getDefinitions_settles fileStr h :
  promise (getDefinitions fileStr (Some h)) <> Pending.
Proof.
  destruct (headerIncomplete (Some h)) eqn:Hh.
  - by rewrite (getDefinitions_incomplete _ _ Hh).
  - destruct (definitionPattern fileStr) as [definitionsStr|] eqn:Hm.
    + by rewrite (getDefinitions_present _ _ _ Hh Hm).
    + by rewrite (getDefinitions_missing _ _ Hh Hm).
Qed.

Lemma getDefinitions_fulfilled_complete fileStr h defs :
  promise (getDefinitions fileStr (Some h)) = Fulfilled defs ->
  headerIncomplete (Some h) = false.
Proof.
  destruct (headerIncomplete (Some h)) eqn:Hh; [| done].
  by rewrite (getDefinitions_incomplete _ _ Hh).
Qed.

Lemma getData_settles fileStr h defs :
  headerIncomplete (Some h) = false ->
  promise (getData fileStr (Some h) (Some defs)) <> Pending.
Proof.
  intros Hh. destruct (dataPattern fileStr) as [dataStr|] eqn:Hm.
  - rewrite (getData_present _ _ _ _ Hh Hm). by destruct (forallb _ _).
  - by rewrite (getData_missing _ _ _ Hh Hm).
Qed.

Lemma headerIncomplete_false h :
  headerIncomplete (Some h) = false
  <-> exists eof eor, getProperty h "EOF" = Some eof /\ getProperty h "EOR" = Some eor.
Proof.
  unfold headerIncomplete. split.
  - intros [H1 H2]%orb_false_elim.
    apply bool_decide_eq_false in H1, H2.
    destruct (getProperty h "EOF") as [eof|], (getProperty h "EOR") as [eor|];
      try done. by exists eof, eor.
  - intros (eof & eor & -> & ->). done.
Qed.

End StageFacts.

(** ** The pipeline of parseBlmFile, stage by stage *)

Module PipelineFacts.
Import JSString Regex Promise Value Parser StageFacts.

Lemma await_withCatch {R} msg (p : Settled R) st :
  await true (withCatch msg p) st
  = match p with
    | Fulfilled v => (st, Normal v)
    | Rejected e => ((fst st, (snd st ++ failure msg e)%list), Throw e)
    | Pending => (st, Suspended)
    end.
Proof.
  unfold await. rewrite promise_withCatch, emitted_withCatch.
  destruct st as [p0 log]. destruct p; cbn [emit fst snd];
    rewrite ?app_nil_r; try done.
Qed.

Lemma await_withCatchBuilding {R} msg (p : Settled R) st :
  await true (withCatchBuilding msg p) st
  = match p with
    | Fulfilled v => (st, Normal v)
    | Rejected e =>
        ((fst st,
          (snd st ++ match msg with Normal m => failure m e | _ => [] end)%list),
         Throw e)
    | Pending => (st, Suspended)
    end.
Proof.
  unfold await, withCatchBuilding. cbn [promise emitted].
  destruct st as [p0 log].
  destruct p, msg; cbn [emit fst snd]; rewrite ?app_nil_r; try done.
Qed.

Section Pipeline.

Variable readStream : JSValue -> StreamOutcome.

(** What the callback receives, read off the stages one after the other. *)
Lemma parseBlmFile_delivered fileHandle :
  delivered (parseBlmFile readStream fileHandle PlainFunction)
  = match promise (streamInData readStream fileHandle) with
    | Pending => []
    | Rejected e =>
        match streamMessage fileHandle with
        | Normal msg => failure msg e
        | _ => []
        end
    | Fulfilled fileStr =>
        match promise (getHeader fileStr) with
        | Pending => []
        | Rejected e => failure headerMessage e
        | Fulfilled header =>
            match promise (getDefinitions fileStr (Some header)) with
            | Pending => []
            | Rejected e => failure definitionsMessage e
            | Fulfilled definitions =>
                match promise (getData fileStr (Some header) (Some definitions)) with
                | Pending => []
                | Rejected e => failure dataMessage e
                | Fulfilled data =>
                    if isValid fileHandle then [CallbackResult data] else []
                end
            end
        end
    end.
Proof.
  unfold parseBlmFile, parseExecutor, isValid.
  destruct (validateFileHandle_fulfilled fileHandle) as [b Hb]. rewrite Hb.
  unfold validateFileHandle in *. rewrite promise_withCatch in Hb.
  rewrite bind_run, await_withCatch, Hb.
  set (st0 := if negb b then _ else _).
  assert (exists p, (st0 (Pending, [])
                     = ((p, []), Normal tt))
                    /\ p = (if b then Pending else Rejected invalidFileHandle))
    as (p & Hst0 & Hp).
  { subst st0. destruct b; eexists; split; reflexivity. }
  rewrite bind_run, Hst0.
  unfold streamInData, getHeader, getDefinitions, getData.
  rewrite bind_run, await_withCatchBuilding, promise_withCatchBuilding.
  destruct (newPromise (streamExecutor readStream fileHandle)) as [|fileStr|e];
    cbn [promise withCatch];
    [by destruct b, p | |
     by destruct b, p, (streamMessage fileHandle); simplify_eq;
        rewrite ?app_nil_r].
  rewrite bind_run, await_withCatch.
  destruct (newPromise (headerExecutor fileStr)) as [|header|e];
    cbn [promise withCatch];
    [by destruct b, p | | by destruct b, p; simplify_eq].
  rewrite bind_run, await_withCatch.
  destruct (newPromise (definitionsExecutor fileStr (Some header)))
    as [|definitions|e]; cbn [promise withCatch];
    [by destruct b, p | | by destruct b, p; simplify_eq].
  rewrite bind_run, await_withCatch.
  destruct (newPromise (dataExecutor fileStr (Some header) (Some definitions)))
    as [|data|e]; cbn [promise withCatch];
    [by destruct b, p | | by destruct b, p; simplify_eq].
  subst p. by destruct b.
Qed.

Lemma streamInData_end fileHandle contents :
  readStream fileHandle = StreamEnd contents ->
  promise (streamInData readStream fileHandle) = Fulfilled contents.
Proof.
  intros Hr. unfold streamInData, streamExecutor.
  rewrite promise_withCatchBuilding. by rewrite Hr.
Qed.

Lemma streamInData_fulfilled_inv fileHandle contents :
  promise (streamInData readStream fileHandle) = Fulfilled contents ->
  readStream fileHandle = StreamEnd contents.
Proof.
  unfold streamInData, streamExecutor. rewrite promise_withCatchBuilding.
  destruct (readStream fileHandle); cbn; congruence.
Qed.

(** A run whose text was read is decided by the three extraction stages. *)
Lemma parseBlmFile_text fileHandle fileStr :
  readStream fileHandle = StreamEnd fileStr ->
  delivered (parseBlmFile readStream fileHandle PlainFunction)
  = match promise (getHeader fileStr) with
    | Pending => []
    | Rejected e => failure headerMessage e
    | Fulfilled header =>
        match promise (getDefinitions fileStr (Some header)) with
        | Pending => []
        | Rejected e => failure definitionsMessage e
        | Fulfilled definitions =>
            match promise (getData fileStr (Some header) (Some definitions)) with
            | Pending => []
            | Rejected e => failure dataMessage e
            | Fulfilled data =>
                if isValid fileHandle then [CallbackResult data] else []
            end
        end
    end.
Proof.
  intros Hr. by rewrite parseBlmFile_delivered, (streamInData_end _ _ Hr).
Qed.

Lemma parseBlmFile_success fileHandle fileStr header definitions data :
  isValid fileHandle = true ->
  readStream fileHandle = StreamEnd fileStr ->
  promise (getHeader fileStr) = Fulfilled header ->
  promise (getDefinitions fileStr (Some header)) = Fulfilled definitions ->
  promise (getData fileStr (Some header) (Some definitions)) = Fulfilled data ->
  delivered (parseBlmFile readStream fileHandle PlainFunction)
  = [CallbackResult data].
Proof.
  intros Hv Hr Hh Hd Hdata.
  by rewrite (parseBlmFile_text _ _ Hr), Hh, Hd, Hdata, Hv.
Qed.

(** The callback is never called twice. *)
Lemma parseBlmFile_at_most_once fileHandle finishCallback :
  length (delivered (parseBlmFile readStream fileHandle finishCallback)) <= 1.
Proof.
  destruct finishCallback; [| cbn; lia].
  rewrite parseBlmFile_delivered.
  repeat case_match; cbn; lia.
Qed.

Lemma streamInData_settles fileHandle :
  promise (streamInData readStream fileHandle) <> Pending.
Proof.
  unfold streamInData, streamExecutor. rewrite promise_withCatchBuilding.
  by destruct (readStream fileHandle).
Qed.

(** Only a string passes validation, and a string has a read message. *)
Lemma isValid_string_handle fileHandle :
  isValid fileHandle = true -> exists s, fileHandle = VString s.
Proof.
  intros Hv. destruct (decide (typeOf fileHandle = "string")) as [Hty | Hty].
  - destruct fileHandle; try done. by eexists.
  - unfold isValid in Hv.
    by rewrite (validateFileHandle_not_string _ Hty) in Hv.
Qed.

Lemma streamMessage_valid fileHandle :
  isValid fileHandle = true ->
  exists shown, streamMessage fileHandle = Normal (readMessage shown).
Proof. intros [s ->]%isValid_string_handle. by exists s. Qed.

(** With a handle that passes validation, it is called exactly once. *)
Lemma parseBlmFile_valid_once fileHandle :
  isValid fileHandle = true ->
  length (delivered (parseBlmFile readStream fileHandle PlainFunction)) = 1.
Proof.
  intros Hv. rewrite parseBlmFile_delivered, Hv.
  destruct (streamMessage_valid _ Hv) as [shown ->].
  pose proof (streamInData_settles fileHandle) as Hs.
  destruct (promise (streamInData _ _)) as [|fileStr|]; [done | | done].
  pose proof (getHeader_settles fileStr) as Hh.
  destruct (promise (getHeader _)) as [|header|]; [done | | done].
  pose proof (getDefinitions_settles fileStr header) as Hd.
  pose proof (getDefinitions_fulfilled_complete fileStr header) as Hc.
  destruct (promise (getDefinitions _ _)) as [|definitions|]; [done | | done].
  pose proof (getData_settles fileStr header definitions (Hc _ eq_refl)) as Hdata.
  by destruct (promise (getData _ _ _)).
Qed.

(** A result reaches the callback only when every stage has succeeded on a
    valid handle. *)
Lemma parseBlmFile_result_inv fileHandle data :
  CallbackResult data ∈ delivered (parseBlmFile readStream fileHandle PlainFunction) ->
  exists fileStr header definitions,
    isValid fileHandle = true
    /\ readStream fileHandle = StreamEnd fileStr
    /\ promise (getHeader fileStr) = Fulfilled header
    /\ promise (getDefinitions fileStr (Some header)) = Fulfilled definitions
    /\ promise (getData fileStr (Some header) (Some definitions)) = Fulfilled data.
Proof.
  rewrite parseBlmFile_delivered. unfold failure.
  destruct (promise (streamInData _ _)) as [|fileStr|] eqn:Hs;
    [by intros ?%elem_of_nil | |
     by destruct (streamMessage fileHandle);
        [intros [=]%list_elem_of_singleton | intros ?%elem_of_nil..]].
  destruct (promise (getHeader _)) as [|header|] eqn:Hh;
    [by intros ?%elem_of_nil | | by intros [=]%list_elem_of_singleton].
  destruct (promise (getDefinitions _ _)) as [|definitions|] eqn:Hd;
    [by intros ?%elem_of_nil | | by intros [=]%list_elem_of_singleton].
  destruct (promise (getData _ _ _)) as [|data'|] eqn:Hdata;
    [by intros ?%elem_of_nil | | by intros [=]%list_elem_of_singleton].
  destruct (isValid fileHandle) eqn:Hv; [| by intros ?%elem_of_nil].
  intros [= ->]%list_elem_of_singleton.
  exists fileStr, header, definitions.
  by apply streamInData_fulfilled_inv in Hs.
Qed.

End Pipeline.

End PipelineFacts.

(** ** Facts about the objects and lists that getData builds *)

Module RecordFacts.
Import JSString Regex Promise Value Parser.

Lemma js_set_size_le {V} k (v : V) (m : gmap string V) :
  size (js_set k v m) <= S (size m).
Proof.
  unfold js_set. case_decide; [lia |].
  rewrite map_size_insert. destruct (m !! k); simpl; lia.
Qed.

Lemma js_set_fresh {V} k (v : V) (m : gmap string V) :
  k <> "__proto__" -> m !! k = None -> size (js_set k v m) = S (size m).
Proof.
  intros Hk Hm. unfold js_set. rewrite decide_False by done.
  by apply map_size_insert_None.
Qed.

Lemma js_set_lookup_ne {V} k k' (v : V) (m : gmap string V) :
  k <> k' -> js_set k v m !! k' = m !! k'.
Proof.
  intros Hk. unfold js_set. case_decide; [done |]. by apply lookup_insert_ne.
Qed.

(** An object never has more keys than values were stored into it. *)
Lemma reduceFrom_size_le defs i arr (acc : DataObject) :
  size (reduceFrom (storeAt defs) i arr acc) <= size acc + length arr.
Proof.
  revert i acc. induction arr as [|cur arr IH]; intros i acc; simpl; [lia |].
  etransitivity; [apply IH |].
  pose proof (js_set_size_le (propertyKey (defs !! i)) cur acc).
  unfold storeAt. lia.
Qed.

(** With distinct names, none of them [__proto__], every value stored adds
    a key. *)
Lemma reduceFrom_size_eq defs i arr (acc : DataObject) :
  NoDup defs -> "__proto__" ∉ defs ->
  i + length arr <= length defs ->
  (forall j k, i <= j -> defs !! j = Some k -> acc !! k = None) ->
  size (reduceFrom (storeAt defs) i arr acc) = size acc + length arr.
Proof.
  intros Hnd Hproto. revert i acc.
  induction arr as [|cur arr IH]; intros i acc Hlen Hfresh; simpl; [lia |].
  simpl in Hlen.
  destruct (lookup_lt_is_Some_2 defs i) as [k Hk]; [lia |].
  assert (k <> "__proto__") as Hkp.
  { intros ->. by apply Hproto, list_elem_of_lookup_2 with i. }
  rewrite IH.
  - unfold storeAt. rewrite Hk. cbn [propertyKey].
    rewrite js_set_fresh; [lia | done | by apply Hfresh with i].
  - lia.
  - intros j k' Hj Hk'. unfold storeAt. rewrite Hk. cbn [propertyKey].
    rewrite js_set_lookup_ne.
    + apply Hfresh with j; [lia | done].
    + intros <-. pose proof (NoDup_lookup _ _ _ _ Hnd Hk Hk'). lia.
Qed.

Lemma dataObjOf_size_le defs arr : size (dataObjOf defs arr) <= length arr.
Proof.
  unfold dataObjOf. etransitivity; [apply (reduceFrom_size_le defs) |].
  by rewrite map_size_empty.
Qed.

Lemma dataObjOf_size_eq defs arr :
  NoDup defs -> "__proto__" ∉ defs -> length arr = length defs ->
  size (dataObjOf defs arr) = length arr.
Proof.
  intros Hnd Hproto Hlen. unfold dataObjOf.
  rewrite (reduceFrom_size_eq defs); [by rewrite map_size_empty | done.. | lia |].
  intros. apply lookup_empty.
Qed.

(** The valid data are the non-empty candidates, in order. *)
Lemma validDataOf_filter data :
  validDataOf data = filter (fun s => s <> EmptyString) data.
Proof.
  unfold validDataOf.
  enough (forall acc,
    fold_left
      (fun accumulator current =>
         if (0 <? String.length current)%nat
         then (accumulator ++ [current])%list else accumulator) data acc
    = (acc ++ filter (fun s => s <> EmptyString) data)%list) as H by apply H.
  induction data as [|s data IH]; intros acc; simpl.
  - by rewrite app_nil_r.
  - rewrite IH. destruct s as [|c s]; simpl.
    + by rewrite filter_cons_False by (by intros []).
    + rewrite filter_cons_True by done. by rewrite <- app_assoc.
Qed.

Lemma validDataIn_nonempty h dataStr elem :
  elem ∈ validDataIn h dataStr -> elem <> EmptyString.
Proof.
  unfold validDataIn. rewrite validDataOf_filter.
  by intros [? _]%list_elem_of_filter.
Qed.

End RecordFacts.

(** ** The claims of the specification *)

Module Claims.
Import JSString Regex Promise Value Parser Samples.
Import JSStringFacts StageFacts PipelineFacts RecordFacts.

(** *** Path validation *)

(** C6.  The path validator resolves with a boolean and never rejects (its
    catch handler emits nothing): [true] for ["a.blm"] and ["a.BLM"],
    [false] for [".blm"], ["a.txt"], the empty string and every value that
    is not a string. *)
Theorem validateFileHandle_boolean :
  (forall v, exists b,
      promise (validateFileHandle v) = Fulfilled b
      /\ emitted (validateFileHandle v) = None)
  /\ promise (validateFileHandle (VString "a.blm")) = Fulfilled true
  /\ promise (validateFileHandle (VString "a.BLM")) = Fulfilled true
  /\ promise (validateFileHandle (VString ".blm")) = Fulfilled false
  /\ promise (validateFileHandle (VString "a.txt")) = Fulfilled false
  /\ promise (validateFileHandle (VString EmptyString)) = Fulfilled false
  /\ (forall v, typeOf v <> "string" ->
                promise (validateFileHandle v) = Fulfilled false).
Proof.
  split; [| repeat split; try (vm_compute; reflexivity)].
  - intros v. destruct (validateFileHandle_fulfilled v) as [b Hb].
    exists b. split; [done | apply validateFileHandle_quiet].
  - apply validateFileHandle_not_string.
Qed.

Lemma validateFileHandle_boolean_witness :
  typeOf (VNumber "5") <> "string"
  /\ promise (validateFileHandle (VNumber "5")) = Fulfilled false.
Proof.
  split; [discriminate |].
  destruct validateFileHandle_boolean as (_ & _ & _ & _ & _ & _ & H).
  apply H. discriminate.
Defined.

(** *** The scenario feed *)

(** C1, as the code has it.  For the feed whose header declares EOF [|]
    and EOR [;], whose definition section is [name|address|price;] and
    whose data section is [Alice|123 Rd|100000|;], read through a valid
    handle, the callback receives exactly one result holding exactly one
    record, which maps [name] to [Alice], [address] to [123 Rd] and the
    key [price;] (the record separator is part of the third name) to
    [100000]. *)
Theorem scenario_record readStream fileHandle :
  isValid fileHandle = true ->
  readStream fileHandle = StreamEnd scenarioFile ->
  delivered (parseBlmFile readStream fileHandle PlainFunction)
  = [CallbackResult
       [ {[ "name" := "Alice"; "address" := "123 Rd"; "price;" := "100000" ]} ]].
Proof.
  intros Hv Hr. eapply parseBlmFile_success; [done | done | ..].
  - vm_compute; reflexivity.
  - vm_compute; reflexivity.
  - vm_compute; reflexivity.
Qed.

Lemma scenario_record_witness :
  delivered (parseBlmFile (onDisk "feed.blm" scenarioFile)
               (VString "feed.blm") PlainFunction)
  = [CallbackResult
       [ {[ "name" := "Alice"; "address" := "123 Rd"; "price;" := "100000" ]} ]].
Proof. apply scenario_record; vm_compute; reflexivity. Defined.

(** C1, as stated, fails: on the scenario feed the record delivered is not
    the one that maps [price] to [100000]. *)
Lemma scenario_record_has_no_price_key :
  delivered (parseBlmFile (onDisk "feed.blm" scenarioFile)
               (VString "feed.blm") PlainFunction)
  <> [CallbackResult
        [ {[ "name" := "Alice"; "address" := "123 Rd"; "price" := "100000" ]} ]].
Proof.
  intros H.
  apply (f_equal (fun l => match l with
                           | [CallbackResult [r]] => r !! "price"
                           | _ => None
                           end)) in H.
  vm_compute in H. discriminate.
Qed.

(** With the definition line ended by the field separator and then the
    record separator, the third key is [price]. *)
Lemma terminated_record readStream fileHandle :
  isValid fileHandle = true ->
  readStream fileHandle = StreamEnd terminatedFile ->
  delivered (parseBlmFile readStream fileHandle PlainFunction)
  = [CallbackResult
       [ {[ "name" := "Alice"; "address" := "123 Rd"; "price" := "100000" ]} ]].
Proof.
  intros Hv Hr. eapply parseBlmFile_success; [done | done | ..].
  - vm_compute; reflexivity.
  - vm_compute; reflexivity.
  - vm_compute; reflexivity.
Qed.

(** *** Delivery of the outcome *)

(** C2, where the code departs from it.  When the handle fails validation
    but the file it names can be read and every extraction stage succeeds,
    the callback is not called at all: it receives neither the records nor
    an error. *)
Theorem invalid_handle_gets_no_outcome
    readStream fileHandle fileStr header definitions data :
  isValid fileHandle = false ->
  readStream fileHandle = StreamEnd fileStr ->
  promise (getHeader fileStr) = Fulfilled header ->
  promise (getDefinitions fileStr (Some header)) = Fulfilled definitions ->
  promise (getData fileStr (Some header) (Some definitions)) = Fulfilled data ->
  delivered (parseBlmFile readStream fileHandle PlainFunction) = [].
Proof.
  intros Hv Hr Hh Hd Hdata.
  by rewrite (parseBlmFile_text _ _ _ Hr), Hh, Hd, Hdata, Hv.
Qed.

Lemma invalid_handle_gets_no_outcome_witness :
  delivered (parseBlmFile (onDisk "feed.txt" terminatedFile)
               (VString "feed.txt") PlainFunction) = [].
Proof.
  eapply (invalid_handle_gets_no_outcome
            (onDisk "feed.txt" terminatedFile) (VString "feed.txt")).
  - vm_compute; reflexivity.
  - vm_compute; reflexivity.
  - vm_compute; reflexivity.
  - vm_compute; reflexivity.
  - vm_compute; reflexivity.
Defined.

(** *** Arity of the records *)

(** C3, as the code has it.  The values of a record that are counted are
    the pieces of its split at the field separator less the last piece,
    which is dropped whether or not it is empty.  When the header declares
    both separators and for some record of the data section that number
    differs from the number of field definitions, the promise of getData
    is rejected with the length mismatch error, which its handler reports
    for the data stage: no list of records, partial or not, is resolved.
    A parse that reaches getData with this header and these definitions
    calls the callback once, with the composed error of the data stage. *)
Theorem arity_mismatch_aborts fileStr h defs dataStr elem :
  headerIncomplete (Some h) = false ->
  dataPattern fileStr = Some dataStr ->
  elem ∈ validDataIn h dataStr ->
  length (dataArrOf (getProperty h "EOF") elem) <> length defs ->
  promise (getData fileStr (Some h) (Some defs)) = Rejected lengthMismatch
  /\ emitted (getData fileStr (Some h) (Some defs))
     = Some (mkErrorObj dataMessage lengthMismatch)
  /\ (forall readStream fileHandle,
        readStream fileHandle = StreamEnd fileStr ->
        promise (getHeader fileStr) = Fulfilled h ->
        promise (getDefinitions fileStr (Some h)) = Fulfilled defs ->
        delivered (parseBlmFile readStream fileHandle PlainFunction)
        = failure dataMessage lengthMismatch).
Proof.
  intros Hh Hm Helem Hlen.
  assert (promise (getData fileStr (Some h) (Some defs))
          = Rejected lengthMismatch) as Hp.
  { rewrite (getData_present _ _ _ _ Hh Hm).
    destruct (forallb _ _) eqn:Hall; [| done].
    rewrite forallb_forall in Hall.
    apply list_elem_of_In, Hall in Helem.
    unfold arityOk in Helem. by apply Nat.eqb_eq in Helem. }
  split; [done |]. split.
  - unfold getData in *. rewrite promise_withCatch in Hp.
    by rewrite emitted_withCatch, Hp.
  - intros readStream fileHandle Hr Hhdr Hd.
    by rewrite (parseBlmFile_text _ _ _ Hr), Hhdr, Hd, Hp.
Qed.

Lemma arity_mismatch_aborts_witness :
  promise (getData shortRecordFile
             (Some {[ "EOF" := Some "|"; "EOR" := Some ";" ]})
             (Some ["name"; "address"; "price"]))
  = Rejected lengthMismatch
  /\ emitted (getData shortRecordFile
                (Some {[ "EOF" := Some "|"; "EOR" := Some ";" ]})
                (Some ["name"; "address"; "price"]))
     = Some (mkErrorObj dataMessage lengthMismatch)
  /\ (forall readStream fileHandle,
        readStream fileHandle = StreamEnd shortRecordFile ->
        promise (getHeader shortRecordFile)
        = Fulfilled {[ "EOF" := Some "|"; "EOR" := Some ";" ]} ->
        promise (getDefinitions shortRecordFile
                   (Some {[ "EOF" := Some "|"; "EOR" := Some ";" ]}))
        = Fulfilled ["name"; "address"; "price"] ->
        delivered (parseBlmFile readStream fileHandle PlainFunction)
        = failure dataMessage lengthMismatch).
Proof.
  eapply (arity_mismatch_aborts shortRecordFile _ _ _ "Alice|123 Rd|").
  - vm_compute; reflexivity.
  - vm_compute; reflexivity.
  - vm_compute. apply list_elem_of_here.
  - vm_compute. lia.
Defined.

(** On a feed: three fields, a record of two values, one composed error. *)
Lemma short_record_rejected :
  delivered (parseBlmFile (onDisk "feed.blm" shortRecordFile)
               (VString "feed.blm") PlainFunction)
  = failure dataMessage lengthMismatch.
Proof. vm_compute; reflexivity. Qed.

(** C3, as stated, fails: the only record of this feed is
    [Alice|123 Rd|100000], which has three values, and the feed has two
    field definitions; yet getData resolves, with a record of two values,
    and the callback receives that list and no error. *)
Lemma value_count_mismatch_accepted :
  validDataIn {[ "EOF" := Some "|"; "EOR" := Some ";" ]}
    (LF +:+ "Alice|123 Rd|100000;" +:+ LF)
  = ["Alice|123 Rd|100000"]
  /\ split (Some "|") "Alice|123 Rd|100000" = ["Alice"; "123 Rd"; "100000"]
  /\ promise (getDefinitions unterminatedRecordFile
                (Some {[ "EOF" := Some "|"; "EOR" := Some ";" ]}))
     = Fulfilled ["name"; "address"]
  /\ promise (getData unterminatedRecordFile
                (Some {[ "EOF" := Some "|"; "EOR" := Some ";" ]})
                (Some ["name"; "address"]))
     = Fulfilled [ {[ "name" := "Alice"; "address" := "123 Rd" ]} ]
  /\ delivered (parseBlmFile (onDisk "feed.blm" unterminatedRecordFile)
                  (VString "feed.blm") PlainFunction)
     = [CallbackResult [ {[ "name" := "Alice"; "address" := "123 Rd" ]} ]].
Proof. repeat split; vm_compute; reflexivity. Qed.

(** *** Missing sections and missing separators *)

(** C4, as the code has it.  When the text that was read lacks one of the
    three section patterns, the callback is called exactly once, with an
    error and never with a result.  The error is the composed error of the
    first stage that fails: the header stage wrapping the error of reading
    a failed match when the header pattern is missing; the definition stage
    when the header pattern is there and the definition pattern is missing;
    the data stage wrapping the error of reading a failed match when header
    and definitions were extracted and the data pattern is missing. *)
Theorem missing_section_fails readStream fileHandle fileStr :
  readStream fileHandle = StreamEnd fileStr ->
  headerPattern fileStr = None \/ definitionPattern fileStr = None
    \/ dataPattern fileStr = None ->
  (exists e, delivered (parseBlmFile readStream fileHandle PlainFunction)
             = [CallbackError e])
  /\ (headerPattern fileStr = None ->
      delivered (parseBlmFile readStream fileHandle PlainFunction)
      = failure headerMessage nullGroupError)
  /\ (forall h,
        promise (getHeader fileStr) = Fulfilled h ->
        definitionPattern fileStr = None ->
        delivered (parseBlmFile readStream fileHandle PlainFunction)
        = failure definitionsMessage
            (if headerIncomplete (Some h) then headerDataIncorrect
             else nullGroupError))
  /\ (forall h defs,
        promise (getHeader fileStr) = Fulfilled h ->
        promise (getDefinitions fileStr (Some h)) = Fulfilled defs ->
        dataPattern fileStr = None ->
        delivered (parseBlmFile readStream fileHandle PlainFunction)
        = failure dataMessage nullGroupError).
Proof.
  intros Hr Hmiss. rewrite (parseBlmFile_text _ _ _ Hr).
  split; [| split; [| split]].
  - destruct (headerPattern fileStr) as [headerStr|] eqn:Hhp.
    2:{ rewrite (getHeader_missing _ Hhp). by eexists. }
    rewrite (getHeader_present _ _ Hhp).
    set (h := fold_left _ _ _).
    destruct (headerIncomplete (Some h)) eqn:Hh.
    { rewrite (getDefinitions_incomplete _ _ Hh). by eexists. }
    destruct (definitionPattern fileStr) as [definitionsStr|] eqn:Hdp.
    2:{ rewrite (getDefinitions_missing _ _ Hh Hdp). by eexists. }
    rewrite (getDefinitions_present _ _ _ Hh Hdp).
    destruct Hmiss as [? | [? | Hdata]]; [done | done |].
    rewrite (getData_missing _ _ _ Hh Hdata). by eexists.
  - intros Hhp. by rewrite (getHeader_missing _ Hhp).
  - intros h Hh Hdp. rewrite Hh.
    destruct (headerIncomplete (Some h)) eqn:Hc.
    + by rewrite (getDefinitions_incomplete _ _ Hc).
    + by rewrite (getDefinitions_missing _ _ Hc Hdp).
  - intros h defs Hh Hd Hdata. rewrite Hh, Hd.
    pose proof (getDefinitions_fulfilled_complete _ _ _ Hd) as Hc.
    by rewrite (getData_missing _ _ _ Hc Hdata).
Qed.

Lemma missing_section_fails_witness :
  exists e,
    delivered (parseBlmFile (onDisk "feed.blm" noDataNoDelimiterFile)
                 (VString "feed.blm") PlainFunction)
    = [CallbackError e].
Proof.
  eapply (missing_section_fails (onDisk "feed.blm" noDataNoDelimiterFile)).
  - vm_compute; reflexivity.
  - right; right. vm_compute; reflexivity.
Defined.

(** C4, as stated, fails: the feed below has its header and definition
    patterns and lacks the data pattern, and the error delivered is the one
    of the definition stage about the header, not an error of the data
    stage. *)
Lemma missing_data_reported_as_definitions :
  headerPattern noDataNoDelimiterFile <> None
  /\ definitionPattern noDataNoDelimiterFile <> None
  /\ dataPattern noDataNoDelimiterFile = None
  /\ delivered (parseBlmFile (onDisk "feed.blm" noDataNoDelimiterFile)
                  (VString "feed.blm") PlainFunction)
     = failure definitionsMessage headerDataIncorrect
  /\ forall e,
       delivered (parseBlmFile (onDisk "feed.blm" noDataNoDelimiterFile)
                    (VString "feed.blm") PlainFunction)
       <> failure dataMessage e.
Proof.
  assert (delivered (parseBlmFile (onDisk "feed.blm" noDataNoDelimiterFile)
                       (VString "feed.blm") PlainFunction)
          = failure definitionsMessage headerDataIncorrect) as Hrun
    by (vm_compute; reflexivity).
  rewrite Hrun. repeat split; done.
Qed.

(** C5.  When the header that was extracted lacks the EOF or the EOR
    property, getDefinitions rejects with its header error whatever the
    rest of the text holds, and the callback is called exactly once, with
    the composed error of the definition stage: neither section is
    extracted before the failure, and getData is not reached. *)
Theorem missing_delimiter_fails_first readStream fileHandle fileStr h :
  readStream fileHandle = StreamEnd fileStr ->
  promise (getHeader fileStr) = Fulfilled h ->
  getProperty h "EOF" = None \/ getProperty h "EOR" = None ->
  (exists c, definitionsExecutor fileStr (Some h) Pending
             = (Rejected headerDataIncorrect, c))
  /\ promise (getDefinitions fileStr (Some h)) = Rejected headerDataIncorrect
  /\ delivered (parseBlmFile readStream fileHandle PlainFunction)
     = failure definitionsMessage headerDataIncorrect.
Proof.
  intros Hr Hh Hmiss.
  assert (headerIncomplete (Some h) = true) as Hc.
  { unfold headerIncomplete. destruct Hmiss as [-> | ->]; [done |].
    apply orb_true_r. }
  split; [by apply definitionsExecutor_incomplete |].
  split; [by apply getDefinitions_incomplete |].
  by rewrite (parseBlmFile_text _ _ _ Hr), Hh, (getDefinitions_incomplete _ _ Hc).
Qed.

Lemma missing_delimiter_fails_first_witness :
  delivered (parseBlmFile (onDisk "feed.blm" noDataNoDelimiterFile)
               (VString "feed.blm") PlainFunction)
  = failure definitionsMessage headerDataIncorrect.
Proof.
  eapply (missing_delimiter_fails_first
            (onDisk "feed.blm" noDataNoDelimiterFile) _ _
            {[ "Version" := Some "3" ]}).
  - vm_compute; reflexivity.
  - vm_compute; reflexivity.
  - left. vm_compute; reflexivity.
Defined.

(** *** Header lines *)

(** C7, as the code has it.  A header line that is not blank and has no
    colon does not make header extraction fail: the promise of getHeader
    is fulfilled with the object folded from all the lines, its handler
    emits nothing, and the step for that line stores the line (trimmed and
    unquoted) as a property whose value is [undefined]. *)
Theorem colonless_line_stored_undefined fileStr headerStr current accumulator :
  headerPattern fileStr = Some headerStr ->
  current ∈ split (Some LF) headerStr ->
  trim current <> EmptyString ->
  hasUnit ":" current = false ->
  promise (getHeader fileStr)
  = Fulfilled (fold_left headerLine (split (Some LF) headerStr) ∅)
  /\ emitted (getHeader fileStr) = None
  /\ headerLine accumulator current
     = js_set (unquote (trim current)) None accumulator.
Proof.
  intros Hm _ Hne Hc.
  pose proof (getHeader_present _ _ Hm) as Hp.
  split; [done |]. split; [| by apply headerLine_colonless].
  unfold getHeader in *. rewrite promise_withCatch in Hp.
  by rewrite emitted_withCatch, Hp.
Qed.

Lemma colonless_line_stored_undefined_witness :
  promise (getHeader colonlessHeaderFile)
  = Fulfilled (fold_left headerLine
                 (split (Some LF)
                    (LF +:+ "Version 3" +:+ LF +:+ "EOF:|" +:+ LF
                        +:+ "EOR:;" +:+ LF)) ∅)
  /\ emitted (getHeader colonlessHeaderFile) = None
  /\ headerLine ∅ "Version 3" = js_set (unquote (trim "Version 3")) None ∅.
Proof.
  apply colonless_line_stored_undefined.
  - vm_compute; reflexivity.
  - vm_compute. apply list_elem_of_further, list_elem_of_here.
  - vm_compute. discriminate.
  - vm_compute; reflexivity.
Defined.

(** C7, as stated, fails: the header below has the line [Version 3], and
    header extraction succeeds, with that line as a property whose value
    is [undefined]. *)
Lemma colonless_line_does_not_fail :
  hasUnit ":" "Version 3" = false
  /\ promise (getHeader colonlessHeaderFile)
     = Fulfilled {[ "Version 3" := None; "EOF" := Some "|"; "EOR" := Some ";" ]}
  /\ emitted (getHeader colonlessHeaderFile) = None.
Proof. repeat split; vm_compute; reflexivity. Qed.



(** On a feed, the value of a dated header line stops at the second
    colon. *)
Lemma dated_header_value :
  exists h, promise (getHeader datedHeaderFile) = Fulfilled h
            /\ getProperty h "Generated" = Some "02-Nov 12".
Proof. eexists. split; vm_compute; reflexivity. Qed.

(** *** Shape of the result *)

(** C8, as the code has it.  When the callback receives a result, the
    number of records equals the number of non-empty record candidates of
    the data section, and every record has at most as many keys as there
    are field definitions; it has exactly as many when the definitions are
    pairwise distinct and none of them is [__proto__]. *)
Theorem result_shape readStream fileHandle data :
  CallbackResult data
    ∈ delivered (parseBlmFile readStream fileHandle PlainFunction) ->
  exists fileStr h defs dataStr,
    readStream fileHandle = StreamEnd fileStr
    /\ promise (getHeader fileStr) = Fulfilled h
    /\ promise (getDefinitions fileStr (Some h)) = Fulfilled defs
    /\ dataPattern fileStr = Some dataStr
    /\ length data
       = length (filter (fun s => s <> EmptyString)
                   (trim <$> split (getProperty h "EOR") dataStr))
    /\ Forall (fun r : DataObject => size r <= length defs) data
    /\ (NoDup defs -> "__proto__" ∉ defs ->
        Forall (fun r : DataObject => size r = length defs) data).
Proof.
  intros (fileStr & h & defs & Hv & Hr & Hh & Hd & Hdata)%parseBlmFile_result_inv.
  pose proof (getDefinitions_fulfilled_complete _ _ _ Hd) as Hc.
  destruct (getData_fulfilled_inv _ _ _ _ Hc Hdata) as (dataStr & Hm & Hall & ->).
  exists fileStr, h, defs, dataStr. repeat split; try done.
  - rewrite length_fmap. unfold validDataIn. by rewrite validDataOf_filter.
  - apply Forall_fmap, Forall_forall. intros elem Helem. cbn.
    rewrite <- (Hall _ Helem). apply dataObjOf_size_le.
  - intros Hnd Hproto. apply Forall_fmap, Forall_forall. intros elem Helem. cbn.
    rewrite <- (Hall _ Helem). apply dataObjOf_size_eq; [done | done |].
    by apply Hall.
Qed.

Lemma result_shape_witness :
  exists fileStr h defs dataStr,
    onDisk "feed.blm" terminatedFile (VString "feed.blm") = StreamEnd fileStr
    /\ promise (getHeader fileStr) = Fulfilled h
    /\ promise (getDefinitions fileStr (Some h)) = Fulfilled defs
    /\ dataPattern fileStr = Some dataStr
    /\ length [ ({[ "name" := "Alice"; "address" := "123 Rd";
                    "price" := "100000" ]} : DataObject) ]
       = length (filter (fun s => s <> EmptyString)
                   (trim <$> split (getProperty h "EOR") dataStr))
    /\ Forall (fun r : DataObject => size r <= length defs)
         [ {[ "name" := "Alice"; "address" := "123 Rd"; "price" := "100000" ]} ]
    /\ (NoDup defs -> "__proto__" ∉ defs ->
        Forall (fun r : DataObject => size r = length defs)
          [ {[ "name" := "Alice"; "address" := "123 Rd"; "price" := "100000" ]} ]).
Proof.
  apply (result_shape (onDisk "feed.blm" terminatedFile) (VString "feed.blm")).
  vm_compute. apply list_elem_of_here.
Defined.

(** C8, as stated, fails: with the field [ref] defined twice, the parse
    succeeds and the record has one key for two definitions. *)
Lemma duplicate_names_collapse :
  promise (getDefinitions duplicateNamesFile
             (Some {[ "EOF" := Some "|"; "EOR" := Some ";" ]}))
  = Fulfilled ["ref"; "ref"]
  /\ delivered (parseBlmFile (onDisk "feed.blm" duplicateNamesFile)
                  (VString "feed.blm") PlainFunction)
     = [CallbackResult [ {[ "ref" := "2" ]} ]]
  /\ size ({[ "ref" := "2" ]} : DataObject) <> length ["ref"; "ref"].
Proof. repeat split; vm_compute; (reflexivity || lia). Qed.

(** *** The element dropped from every record *)

(** C9.  Every record candidate loses the last element of its split on the
    field separator, whatever that element is: when the candidate does not
    end with the separator, the element is not empty, so a value is
    discarded.  The arity test and the record are both taken from the
    shortened list, and no other error is raised for the record. *)
Theorem last_split_element_dropped fileStr h defs dataStr eof :
  getProperty h "EOF" = Some eof ->
  headerIncomplete (Some h) = false ->
  dataPattern fileStr = Some dataStr ->
  (forall elem,
      elem ∈ validDataIn h dataStr ->
      exists v,
        split (Some eof) elem = (dataArrOf (Some eof) elem ++ [v])%list
        /\ (endsWith eof elem = false -> v <> EmptyString))
  /\ promise (getData fileStr (Some h) (Some defs))
     = if forallb
            (fun elem => (length (dataArrOf (Some eof) elem) =? length defs)%nat)
            (validDataIn h dataStr)
       then Fulfilled
              ((fun elem => dataObjOf defs (dataArrOf (Some eof) elem))
                 <$> validDataIn h dataStr)
       else Rejected lengthMismatch.
Proof.
  intros Heof Hc Hm. split.
  - intros elem Helem%validDataIn_nonempty. by apply split_last.
  - rewrite (getData_present _ _ _ _ Hc Hm), Heof. done.
Qed.

Lemma last_split_element_dropped_witness :
  (forall elem,
      elem ∈ validDataIn {[ "EOF" := Some "|"; "EOR" := Some ";" ]}
               (LF +:+ "Alice|123 Rd|100000;" +:+ LF) ->
      exists v,
        split (Some "|") elem = (dataArrOf (Some "|") elem ++ [v])%list
        /\ (endsWith "|" elem = false -> v <> EmptyString))
  /\ promise (getData unterminatedRecordFile
                (Some {[ "EOF" := Some "|"; "EOR" := Some ";" ]})
                (Some ["name"; "address"]))
     = if forallb
            (fun elem =>
               (length (dataArrOf (Some "|") elem) =? length ["name"; "address"])%nat)
            (validDataIn {[ "EOF" := Some "|"; "EOR" := Some ";" ]}
               (LF +:+ "Alice|123 Rd|100000;" +:+ LF))
       then Fulfilled
              ((fun elem => dataObjOf ["name"; "address"] (dataArrOf (Some "|") elem))
                 <$> validDataIn {[ "EOF" := Some "|"; "EOR" := Some ";" ]}
                       (LF +:+ "Alice|123 Rd|100000;" +:+ LF))
       else Rejected lengthMismatch.
Proof.
  apply last_split_element_dropped; vm_compute; reflexivity.
Defined.

(** On a feed: the record [Alice|123 Rd|100000] lacks the closing
    separator, its third value is dropped, and the parse succeeds with the
    two values that are left. *)
Lemma unterminated_record_loses_value :
  endsWith "|" "Alice|123 Rd|100000" = false
  /\ delivered (parseBlmFile (onDisk "feed.blm" unterminatedRecordFile)
                  (VString "feed.blm") PlainFunction)
     = [CallbackResult [ {[ "name" := "Alice"; "address" := "123 Rd" ]} ]].
Proof. split; vm_compute; reflexivity. Qed.

End Claims.

(** ** More about the pipeline: how often and with what the callback is called *)

Module OutcomeFacts.
Import JSString Regex Promise Value Parser.
Import JSStringFacts StageFacts PipelineFacts RecordFacts.

Lemma getHeader_rejected_inv fileStr e :
  promise (getHeader fileStr) = Rejected e ->
  headerPattern fileStr = None /\ e = nullGroupError.
Proof.
  destruct (headerPattern fileStr) as [headerStr|] eqn:Hm.
  - by rewrite (getHeader_present _ _ Hm).
  - rewrite (getHeader_missing _ Hm). by intros [= <-].
Qed.

Lemma getDefinitions_rejected_inv fileStr h e :
  promise (getDefinitions fileStr (Some h)) = Rejected e ->
  (headerIncomplete (Some h) = true /\ e = headerDataIncorrect)
  \/ (headerIncomplete (Some h) = false /\ definitionPattern fileStr = None
      /\ e = nullGroupError).
Proof.
  destruct (headerIncomplete (Some h)) eqn:Hh.
  - rewrite (getDefinitions_incomplete _ _ Hh). intros [= <-]. by left.
  - destruct (definitionPattern fileStr) as [definitionsStr|] eqn:Hm.
    + by rewrite (getDefinitions_present _ _ _ Hh Hm).
    + rewrite (getDefinitions_missing _ _ Hh Hm). intros [= <-]. by right.
Qed.

Lemma getData_rejected_inv fileStr h defs e :
  headerIncomplete (Some h) = false ->
  promise (getData fileStr (Some h) (Some defs)) = Rejected e ->
  (dataPattern fileStr = None /\ e = nullGroupError)
  \/ (dataPattern fileStr <> None /\ e = lengthMismatch).
Proof.
  intros Hh. destruct (dataPattern fileStr) as [dataStr|] eqn:Hm.
  - rewrite (getData_present _ _ _ _ Hh Hm).
    destruct (forallb _ _); [done |]. intros [= <-]. by right.
  - rewrite (getData_missing _ _ _ Hh Hm). intros [= <-]. by left.
Qed.

Section Outcome.

Variable readStream : JSValue -> StreamOutcome.

Lemma streamMessage_cases fileHandle :
  (exists shown, toString fileHandle = Normal shown
                 /\ streamMessage fileHandle = Normal (readMessage shown))
  \/ (exists thrown, toString fileHandle = Throw thrown
                     /\ streamMessage fileHandle = Throw thrown).
Proof.
  unfold streamMessage.
  destruct fileHandle as [| |[|]| | | | | | |]; cbn [toString];
    (by left; eexists) || (by right; eexists).
Qed.

Lemma streamInData_cases fileHandle :
  promise (streamInData readStream fileHandle)
  = match readStream fileHandle with
    | StreamEnd contents => Fulfilled contents
    | StreamError => Rejected (mkError PlainError EmptyString)
    | CreateThrows e => Rejected e
    end.
Proof.
  unfold streamInData, streamExecutor. rewrite promise_withCatchBuilding.
  by destruct (readStream fileHandle).
Qed.

End Outcome.

End OutcomeFacts.

(** ** More about header lines, objects and guards *)

Module LineFacts.
Import JSString Regex Promise Value Parser Feed.
Import JSStringFacts StageFacts PipelineFacts RecordFacts.

(** *** Trimming, continued *)

Lemma trimStart_trimEnd s : trimStart (trimEnd s) = trimEnd (trimStart s).
Proof.
  induction s as [|c s IH]; [done |].
  destruct (isWhiteSpace c) eqn:Hc.
  - cbn [trimStart]. rewrite Hc, trimEnd_unfold, Hc.
    destruct (trimEnd s) as [|a t] eqn:Ht.
    + by rewrite <- IH.
    + cbn [trimStart]. by rewrite Hc, <- IH.
  - rewrite (trimEnd_unit _ _ Hc). cbn [trimStart]. rewrite Hc.
    by rewrite (trimEnd_unit _ _ Hc).
Qed.

Lemma trim_trimEnd s : trim (trimEnd s) = trim s.
Proof. unfold trim. by rewrite trimStart_trimEnd, trimEnd_idem. Qed.

Lemma trim_allWhiteSpace s : allWhiteSpace s = true -> trim s = EmptyString.
Proof.
  unfold trim. induction s as [|c s IH]; [done |].
  cbn [allWhiteSpace trimStart]. intros [-> Hs]%andb_prop. by apply IH.
Qed.

Lemma trim_clean_ends c s d :
  isWhiteSpace c = false -> isWhiteSpace d = false ->
  trim (String c (s +:+ String d EmptyString)) = String c (s +:+ String d EmptyString).
Proof.
  intros Hc Hd. unfold trim. cbn [trimStart]. rewrite Hc.
  change (String c (s +:+ String d EmptyString))
    with (String c s +:+ String d EmptyString).
  by rewrite (trimEnd_app_unit _ _ _ Hd).
Qed.

(** *** Quotes *)

Lemma quote_not_space c : isQuote c = true -> isWhiteSpace c = false.
Proof.
  unfold isQuote, eqb_ascii.
  intros [->%Ascii.eqb_eq | ->%Ascii.eqb_eq]%orb_prop; reflexivity.
Qed.

Lemma stripTrailingQuote_snoc s b :
  isQuote b = true -> stripTrailingQuote (s +:+ String b EmptyString) = s.
Proof.
  intros Hb. induction s as [|c s IH]; rewrite ?app_nil_l, ?app_cons.
  - cbn. by rewrite Hb.
  - cbn [stripTrailingQuote]. rewrite IH. by destruct s.
Qed.

Lemma unquote_quoted a s b :
  isQuote a = true -> isQuote b = true ->
  unquote (String a (s +:+ String b EmptyString)) = s.
Proof.
  intros Ha Hb. unfold unquote. cbn [stripLeadingQuote]. rewrite Ha.
  by apply stripTrailingQuote_snoc.
Qed.

(** *** Assignments *)

Lemma js_set_lookup_proto {V} k (v : V) (m : gmap string V) :
  js_set k v m !! "__proto__" = m !! "__proto__".
Proof.
  unfold js_set. case_decide; [done |]. by rewrite lookup_insert_ne.
Qed.

Lemma js_set_lookup_eq {V} k (v : V) (m : gmap string V) :
  k <> "__proto__" -> js_set k v m !! k = Some v.
Proof.
  intros Hk. unfold js_set. rewrite decide_False by done.
  apply lookup_insert_eq.
Qed.

(** *** Header lines *)

Lemma headerLine_blank accumulator current :
  trim current = EmptyString -> headerLine accumulator current = accumulator.
Proof. intros H. unfold headerLine. by rewrite H. Qed.

(** A line with exactly one colon. *)
Lemma headerLine_one_colon accumulator p v :
  hasUnit ":" p = false ->
  hasUnit ":" v = false ->
  headerLine accumulator (p +:+ ":" +:+ v)
  = js_set (unquote (trim p)) (Some (unquote (trim v))) accumulator.
Proof.
  intros Hp Hv. unfold headerLine.
  change (p +:+ ":" +:+ v) with (p +:+ String ":" v).
  assert (trim (p +:+ String ":" v) = trimStart p +:+ String ":" (trimEnd v)) as ->.
  { unfold trim. rewrite trimStart_app_unit by apply colon_not_space.
    by rewrite trimEnd_app_unit by apply colon_not_space. }
  assert (String.eqb (trimStart p +:+ String ":" (trimEnd v)) EmptyString = false)
    as -> by by destruct (trimStart p).
  cbn [negb split].
  rewrite splitScan_unit_first by by apply hasUnit_trimStart.
  rewrite splitScan_unit_absent by by apply hasUnit_trimEnd.
  cbn. by rewrite trim_trimStart, trim_trimEnd.
Qed.

Lemma headerLine_lookup_proto accumulator current :
  headerLine accumulator current !! "__proto__" = accumulator !! "__proto__".
Proof.
  unfold headerLine. destruct (negb _); [| done]. apply js_set_lookup_proto.
Qed.

Lemma fold_headerLine_proto ls accumulator :
  fold_left headerLine ls accumulator !! "__proto__" = accumulator !! "__proto__".
Proof.
  revert accumulator. induction ls as [|l ls IH]; intros acc; [done |].
  cbn [fold_left]. by rewrite IH, headerLine_lookup_proto.
Qed.

Lemma fold_headerLine_blank ls accumulator :
  Forall (fun l => trim l = EmptyString) ls ->
  fold_left headerLine ls accumulator = accumulator.
Proof.
  revert accumulator. induction ls as [|l ls IH]; intros acc; [done |].
  intros [Hl Hls]%Forall_cons. cbn [fold_left].
  by rewrite (headerLine_blank _ _ Hl), IH.
Qed.

(** A line changes the property it declares and no other. *)
Lemma headerLine_undeclared accumulator current k :
  declared current <> Some k ->
  headerLine accumulator current !! k = accumulator !! k.
Proof.
  unfold declared, headerLine.
  destruct (String.eqb (trim current) EmptyString); cbn [negb]; [done |].
  cbn zeta. intros Hk. apply js_set_lookup_ne. congruence.
Qed.

Lemma fold_headerLine_undeclared ls accumulator k :
  Forall (fun l => declared l <> Some k) ls ->
  fold_left headerLine ls accumulator !! k = accumulator !! k.
Proof.
  revert accumulator. induction ls as [|l ls IH]; intros acc; [done |].
  intros [Hl Hls]%Forall_cons. cbn [fold_left].
  by rewrite IH, headerLine_undeclared.
Qed.

(** *** Pieces of a white-space text *)

Lemma splitScan_allWhiteSpace sep s :
  allWhiteSpace s = true ->
  forall k, Forall (fun p => allWhiteSpace p = true) (splitScan sep k s).
Proof.
  induction s as [|c s IH]; intros Hs k.
  - by repeat constructor.
  - cbn [allWhiteSpace] in Hs. apply andb_prop in Hs as [Hc Hs].
    cbn [splitScan]. destruct k as [|k]; [| by apply IH].
    destruct (startsWith sep (String c s)).
    + constructor; [done | by apply IH].
    + specialize (IH Hs 0%nat).
      destruct (splitScan sep 0 s) as [|piece pieces].
      { constructor; [| constructor]. cbn [allWhiteSpace]. by rewrite Hc. }
      apply Forall_cons in IH as [Hp Hps].
      constructor; [| done]. cbn [allWhiteSpace]. by rewrite Hc, Hp.
Qed.

Lemma codeUnits_allWhiteSpace s :
  allWhiteSpace s = true ->
  Forall (fun p => allWhiteSpace p = true) (codeUnits s).
Proof.
  induction s as [|c s IH]; [constructor |].
  cbn [allWhiteSpace codeUnits]. intros [Hc Hs]%andb_prop.
  constructor; [| by apply IH]. cbn [allWhiteSpace]. by rewrite Hc.
Qed.

Lemma split_allWhiteSpace sep s :
  allWhiteSpace s = true ->
  Forall (fun p => trim p = EmptyString) (split sep s).
Proof.
  intros Hs. eapply Forall_impl; [| intros p; apply trim_allWhiteSpace].
  destruct sep as [[|a sep]|]; cbn [split].
  - by apply codeUnits_allWhiteSpace.
  - by apply splitScan_allWhiteSpace.
  - by repeat constructor.
Qed.

Lemma filter_blank l :
  Forall (fun p => trim p = EmptyString) l ->
  filter (fun s => s <> EmptyString) (trim <$> l) = [].
Proof.
  induction l as [|p ps IH]; [done |].
  intros [Hp Hps]%Forall_cons. rewrite fmap_cons, filter_cons_False.
  - by apply IH.
  - rewrite Hp. by intros H.
Qed.

(** *** The keys of a data object *)

Lemma reduceFrom_keys defs i arr (acc : DataObject) k :
  is_Some (reduceFrom (storeAt defs) i arr acc !! k) ->
  is_Some (acc !! k)
  \/ (k <> "__proto__"
      /\ exists j, i <= j < i + length arr /\ propertyKey (defs !! j) = k).
Proof.
  revert i acc. induction arr as [|cur arr IH]; intros i acc; cbn [reduceFrom].
  - by left.
  - intros [Hacc | (Hk & j & Hj & Hkey)]%IH.
    + unfold storeAt, js_set in Hacc. case_decide as Hp; [by left |].
      destruct (decide (propertyKey (defs !! i) = k)) as [<- | Hne].
      * right. split; [done |]. exists i. simpl. split; [lia | done].
      * rewrite lookup_insert_ne in Hacc by done. by left.
    + right. split; [done |]. exists j. simpl. split; [lia | done].
Qed.

Lemma dataObjOf_keys defs arr k :
  length arr = length defs ->
  is_Some (dataObjOf defs arr !! k) -> k ∈ defs /\ k <> "__proto__".
Proof.
  intros Hlen [Hempty | (Hk & j & Hj & Hkey)]%(reduceFrom_keys defs).
  - rewrite lookup_empty in Hempty. by destruct Hempty.
  - split; [| done].
    destruct (lookup_lt_is_Some_2 defs j) as [d Hd]; [lia |].
    rewrite Hd in Hkey. cbn in Hkey. subst d. by eapply list_elem_of_lookup_2.
Qed.

(** With distinct names, the object is the positional pairing of names and
    values. *)
Lemma reduceFrom_zip defs i arr (acc : DataObject) :
  NoDup defs -> "__proto__" ∉ defs ->
  i + length arr <= length defs ->
  reduceFrom (storeAt defs) i arr acc
  = list_to_map (zip (drop i defs) arr) ∪ acc.
Proof.
  intros Hnd Hproto. revert i acc.
  induction arr as [|cur arr IH]; intros i acc Hlen; cbn [reduceFrom].
  - destruct (drop i defs); cbn; by rewrite (left_id_L ∅ (∪)).
  - simpl in Hlen.
    destruct (lookup_lt_is_Some_2 defs i) as [k Hk]; [lia |].
    rewrite (drop_S _ _ _ Hk). cbn [zip zip_with list_to_map foldr fst snd].
    rewrite IH by lia. unfold storeAt. rewrite Hk. cbn [propertyKey].
    unfold js_set. rewrite decide_False.
    2:{ intros ->. by apply Hproto, list_elem_of_lookup_2 with i. }
    rewrite <- insert_union_l. symmetry. apply insert_union_r.
    apply not_elem_of_list_to_map_1. intros Hin.
    apply list_elem_of_fmap in Hin as ([k' v'] & -> & Hin).
    apply elem_of_zip_l in Hin. cbn in Hin.
    apply list_elem_of_lookup in Hin as [j Hj].
    rewrite lookup_drop in Hj.
    pose proof (NoDup_lookup _ _ _ _ Hnd Hk Hj). lia.
Qed.

Lemma dataObjOf_zip defs arr :
  NoDup defs -> "__proto__" ∉ defs -> length arr <= length defs ->
  dataObjOf defs arr = list_to_map (zip defs arr).
Proof.
  intros Hnd Hproto Hlen. unfold dataObjOf.
  rewrite (reduceFrom_zip defs 0 arr ∅ Hnd Hproto) by (simpl; lia).
  by rewrite drop_0, (right_id_L ∅ (∪)).
Qed.

(** *** Guards of getData *)

Lemma settleWith_settled {R} (o st : Settled R) :
  st <> Pending -> settleWith o st = st.
Proof. by destruct st. Qed.

Lemma dataElem_settled header definitions elem (st : Settled (list DataObject)) :
  st <> Pending -> fst (dataElem header definitions elem st) = st.
Proof.
  intros Hst. unfold dataElem.
  destruct header as [h|], definitions as [defs|];
    cbn [readField readDefinitions]; step_code; try done.
  destruct (negb _); step_code; cbn [fst]; [by apply settleWith_settled | done].
Qed.

Lemma mapM_dataElem_settled header definitions l (st : Settled (list DataObject)) :
  st <> Pending -> fst (mapM (dataElem header definitions) l st) = st.
Proof.
  intros Hst. induction l as [|elem l IH]; [done |].
  cbn [mapM]. rewrite bind_run.
  pose proof (dataElem_settled header definitions elem st Hst) as He.
  destruct (dataElem header definitions elem st) as [st1 [obj| |]];
    cbn [fst] in He; subst st1; [| done..].
  rewrite bind_run.
  destruct (mapM (dataElem header definitions) l st) as [st2 [objs| |]];
    cbn [fst] in IH; subst st2; done.
Qed.

Lemma dataExecutor_guarded fileStr header definitions e :
  fst (((group1 (dataPattern fileStr)
          ≫= fun dataStr =>
                readField header "EOR"
                ≫= fun EOR =>
                     mapM (dataElem header definitions)
                       (validDataOf (trim <$> split EOR dataStr))
                     ≫= fun dataObjects => resolve dataObjects)
         : Exec (list DataObject) unit) (Rejected e))
  = Rejected e.
Proof.
  rewrite bind_run. destruct (dataPattern fileStr) as [dataStr|]; [| done].
  cbn [group1]. step_code. destruct header as [h|]; cbn [readField]; step_code;
    [| done].
  set (l := validDataOf (trim <$> split (getProperty h "EOR") dataStr)).
  pose proof (mapM_dataElem_settled (Some h) definitions l (Rejected e)) as Hm.
  destruct (mapM (dataElem (Some h) definitions) l (Rejected e))
    as [st [objs| |]]; cbn [fst] in Hm; rewrite Hm by done; step_code; done.
Qed.

Lemma newPromise_rejected {R} (executor : Exec R unit) e :
  fst (executor Pending) = Rejected e -> newPromise executor = Rejected e.
Proof.
  unfold newPromise. destruct (executor Pending) as [st c]. cbn [fst].
  by intros ->.
Qed.

Lemma dataExecutor_header_guard fileStr header definitions :
  headerIncomplete header = true ->
  fst (dataExecutor fileStr header definitions Pending)
  = Rejected headerDataUndefined.
Proof.
  intros Hh. unfold dataExecutor. rewrite bind_run, Hh, reject_run.
  cbn [settleWith]. apply dataExecutor_guarded.
Qed.

Lemma dataExecutor_definitions_guard fileStr header :
  headerIncomplete header = false ->
  fst (dataExecutor fileStr header None Pending)
  = Rejected definitionDataUndefined.
Proof.
  intros Hh. unfold dataExecutor. rewrite bind_run, Hh.
  rewrite bool_decide_eq_true_2 by done. rewrite reject_run.
  cbn [settleWith]. apply dataExecutor_guarded.
Qed.

Lemma definitionsExecutor_guard fileStr header :
  headerIncomplete header = true ->
  fst (definitionsExecutor fileStr header Pending) = Rejected headerDataIncorrect.
Proof.
  intros Hh. unfold definitionsExecutor. rewrite bind_run, Hh, reject_run.
  cbn [settleWith]. rewrite bind_run.
  destruct (definitionPattern fileStr); [| done].
  cbn [group1]. step_code.
  destruct header as [h|]; cbn [readField]; step_code; done.
Qed.

(** *** What a fulfilled getDefinitions read *)

Lemma getDefinitions_fulfilled_inv fileStr h defs :
  promise (getDefinitions fileStr (Some h)) = Fulfilled defs ->
  exists definitionsStr,
    headerIncomplete (Some h) = false
    /\ definitionPattern fileStr = Some definitionsStr
    /\ defs = definitionsOf h definitionsStr.
Proof.
  intros Hd. pose proof (getDefinitions_fulfilled_complete _ _ _ Hd) as Hc.
  destruct (definitionPattern fileStr) as [definitionsStr|] eqn:Hm.
  - rewrite (getDefinitions_present _ _ _ Hc Hm) in Hd.
    injection Hd as <-. by exists definitionsStr.
  - by rewrite (getDefinitions_missing _ _ Hc Hm) in Hd.
Qed.

Lemma Forall_removelast {A} (P : A -> Prop) (l : list A) :
  Forall P l -> Forall P (removelast l).
Proof.
  induction l as [|x l IH]; [done |].
  intros [Hx Hl]%Forall_cons. destruct l as [|y l]; [constructor |].
  change (removelast (x :: y :: l)) with (x :: removelast (y :: l)).
  constructor; [done | by apply IH].
Qed.

End LineFacts.

(** ** Texts made of separated pieces *)

Module TextFacts.
Import JSString Regex Promise Value Parser Feed.
Import JSStringFacts StageFacts PipelineFacts RecordFacts LineFacts.

Lemma hasUnit_app c a b : hasUnit c (a +:+ b) = hasUnit c a || hasUnit c b.
Proof.
  induction a as [|x a IH]; rewrite ?app_nil_l, ?app_cons; [done |].
  cbn [hasUnit]. by rewrite IH, orb_assoc.
Qed.

Lemma allWhiteSpace_hasUnit c s :
  allWhiteSpace s = true -> isWhiteSpace c = false -> hasUnit c s = false.
Proof.
  intros Hs Hc. induction s as [|x s IH]; [done |].
  cbn [allWhiteSpace] in Hs. apply andb_prop in Hs as [Hx Hs].
  cbn [hasUnit]. rewrite (IH Hs), orb_false_r.
  destruct (eqb_ascii c x) eqn:E; [| done].
  apply eqb_ascii_true in E as ->. congruence.
Qed.

Lemma trimStart_lead lead s :
  allWhiteSpace lead = true -> trimStart (lead +:+ s) = trimStart s.
Proof.
  induction lead as [|x lead IH]; [done |].
  cbn [allWhiteSpace]. intros [Hx Hl]%andb_prop.
  rewrite app_cons. cbn [trimStart]. rewrite Hx. by apply IH.
Qed.

Lemma trimEnd_allWhiteSpace s : allWhiteSpace s = true -> trimEnd s = EmptyString.
Proof.
  induction s as [|x s IH]; [done |].
  cbn [allWhiteSpace]. intros [Hx Hs]%andb_prop.
  by rewrite trimEnd_unfold, (IH Hs), Hx.
Qed.

Lemma trim_lead lead s : allWhiteSpace lead = true -> trim (lead +:+ s) = trim s.
Proof. intros H. unfold trim. by rewrite trimStart_lead. Qed.

(** *** Pieces ended by a code unit *)

Lemma joinEnded_cons c p ps :
  joinEnded c (p :: ps) = p +:+ String c (joinEnded c ps).
Proof. reflexivity. Qed.

Lemma splitScan_joinEnded c ps t :
  Forall (fun p => hasUnit c p = false) ps ->
  splitScan (String c EmptyString) 0 (joinEnded c ps +:+ t)
  = (ps ++ splitScan (String c EmptyString) 0 t)%list.
Proof.
  induction ps as [|p ps IH]; [done |].
  intros [Hp Hps]%Forall_cons. rewrite joinEnded_cons, app_assoc, app_cons.
  rewrite (splitScan_unit_first _ _ _ Hp). cbn [app]. by rewrite IH.
Qed.

Lemma joinEnded_ends c ps :
  ps <> [] -> exists x, joinEnded c ps = x +:+ String c EmptyString.
Proof.
  induction ps as [|p ps IH]; [done |]. intros _.
  rewrite joinEnded_cons. destruct ps as [|q ps].
  - by exists p.
  - destruct IH as [x Hx]; [done |]. rewrite Hx.
    exists (p +:+ String c x). by rewrite app_assoc, app_cons.
Qed.

Lemma joinEnded_nonempty c ps : ps <> [] -> joinEnded c ps <> EmptyString.
Proof.
  destruct ps as [|p ps]; [done |]. intros _.
  rewrite joinEnded_cons. by destruct p.
Qed.

Lemma joinEnded_hasUnit d c ps :
  eqb_ascii d c = false ->
  Forall (fun p => hasUnit d p = false) ps ->
  hasUnit d (joinEnded c ps) = false.
Proof.
  intros Hdc. induction ps as [|p ps IH]; [done |].
  intros [Hp Hps]%Forall_cons.
  rewrite joinEnded_cons, hasUnit_app, Hp. cbn [hasUnit orb].
  by rewrite Hdc, IH.
Qed.

Lemma trim_cleanRow c row :
  cleanRow row -> isWhiteSpace c = false ->
  trim (joinEnded c row) = joinEnded c row.
Proof.
  intros Hrow Hc. destruct (joinEnded_ends c row) as [x Hx].
  { by destruct row. }
  unfold trim. rewrite trimStart_of_clean.
  - rewrite Hx. by rewrite (trimEnd_app_unit _ _ _ Hc).
  - destruct row as [|v vs]; [done |]. rewrite joinEnded_cons.
    destruct v as [|a v]; [exact Hc | exact Hrow].
Qed.

Lemma eqb_ascii_false a b : a <> b -> eqb_ascii a b = false.
Proof.
  intros Hne. destruct (eqb_ascii a b) eqn:E; [| done].
  by apply eqb_ascii_true in E.
Qed.

Lemma fmap_fixed {A} (f : A -> A) (l : list A) :
  Forall (fun x => f x = x) l -> f <$> l = l.
Proof.
  induction 1 as [|x xs Hx _ IH]; [done |]. by rewrite fmap_cons, Hx, IH.
Qed.

(** *** The pieces of a definition line *)

Lemma definition_pieces eof eor names lead trail :
  allWhiteSpace lead = true ->
  allWhiteSpace trail = true ->
  isWhiteSpace eof = false ->
  isWhiteSpace eor = false ->
  eof <> eor ->
  Forall (fun n => hasUnit eof n = false /\ trim n = n) names ->
  trim <$> splitScan (String eof EmptyString) 0
             (lead +:+ joinEnded eof names +:+ String eor trail)
  = (names ++ [String eor EmptyString])%list.
Proof.
  intros Hlead Htrail Heof Heor Hne Hnames.
  assert (hasUnit eof (String eor trail) = false) as Hlast.
  { cbn [hasUnit]. rewrite (eqb_ascii_false _ _ Hne).
    by apply allWhiteSpace_hasUnit. }
  assert (trim (String eor trail) = String eor EmptyString) as Htl.
  { unfold trim. cbn [trimStart]. rewrite Heor.
    by rewrite (trimEnd_unit _ _ Heor), trimEnd_allWhiteSpace. }
  destruct names as [|n names].
  - cbn [joinEnded fold_right]. rewrite app_nil_l.
    rewrite splitScan_unit_absent.
    + cbn [fmap list_fmap app]. by rewrite (trim_lead _ _ Hlead), Htl.
    + rewrite hasUnit_app, Hlast.
      by rewrite (allWhiteSpace_hasUnit _ _ Hlead Heof).
  - apply Forall_cons in Hnames as [[Hn Hnt] Hnames].
    rewrite joinEnded_cons, !app_assoc, app_cons.
    rewrite <- (app_assoc lead n).
    rewrite splitScan_unit_first.
    2:{ by rewrite hasUnit_app, Hn, (allWhiteSpace_hasUnit _ _ Hlead Heof). }
    rewrite splitScan_joinEnded.
    2:{ eapply Forall_impl; [exact Hnames | by intros ? [? _]]. }
    rewrite (splitScan_unit_absent _ _ Hlast).
    rewrite fmap_cons, fmap_app. cbn [fmap list_fmap].
    rewrite (trim_lead _ _ Hlead), Hnt, Htl. cbn [app]. do 2 f_equal.
    apply fmap_fixed. eapply Forall_impl; [exact Hnames | by intros ? [_ ?]].
Qed.

(** *** The pieces of a data section *)

Lemma data_pieces eof eor gap rows lead :
  allWhiteSpace lead = true ->
  allWhiteSpace gap = true ->
  isWhiteSpace eof = false ->
  isWhiteSpace eor = false ->
  eof <> eor ->
  Forall (fun row => cleanRow row
                     /\ Forall (fun v => hasUnit eor v = false) row) rows ->
  filter (fun s => s <> EmptyString)
    (trim <$> splitScan (String eor EmptyString) 0
                (lead +:+ dataText eof eor gap rows))
  = joinEnded eof <$> rows.
Proof.
  intros Hlead Hgap Heof Heor Hne Hrows. revert lead Hlead.
  induction Hrows as [|row rows [Hclean Hvals] _ IH]; intros lead Hlead.
  - cbn [dataText fold_right]. rewrite app_empty_r.
    rewrite splitScan_unit_absent by by apply allWhiteSpace_hasUnit.
    cbn [fmap list_fmap]. rewrite (trim_allWhiteSpace _ Hlead).
    by rewrite filter_cons_False by (by intros H).
  - cbn [dataText fold_right]. fold (dataText eof eor gap rows).
    rewrite <- app_assoc.
    rewrite splitScan_unit_first.
    2:{ rewrite hasUnit_app, (allWhiteSpace_hasUnit _ _ Hlead Heor).
        apply joinEnded_hasUnit; [| done].
        apply eqb_ascii_false. congruence. }
    rewrite fmap_cons, (trim_lead _ _ Hlead), (trim_cleanRow _ _ Hclean Heof).
    rewrite filter_cons_True.
    2:{ apply joinEnded_nonempty. by destruct row. }
    rewrite fmap_cons. f_equal. by apply IH.
Qed.

Lemma dataArrOf_joinEnded eof row :
  Forall (fun v => hasUnit eof v = false) row ->
  dataArrOf (Some (String eof EmptyString)) (joinEnded eof row) = row.
Proof.
  intros Hrow. unfold dataArrOf. cbn [split].
  rewrite <- (app_empty_r (joinEnded eof row)).
  rewrite (splitScan_joinEnded _ _ _ Hrow). cbn [splitScan].
  apply List.removelast_last.
Qed.

End TextFacts.

(** ** Facts about the section patterns *)

Module RegexFacts.
Import JSString Regex Promise Value Parser Feed.
Import JSStringFacts StageFacts LineFacts TextFacts.

Lemma stripPrefix_app p s : stripPrefix p (p +:+ s) = Some s.
Proof.
  induction p as [|a p IH]; [done |].
  rewrite app_cons. cbn [stripPrefix]. by rewrite eqb_ascii_refl.
Qed.

Lemma stripPrefix_Some p s r : stripPrefix p s = Some r -> s = p +:+ r.
Proof.
  revert s. induction p as [|a p IH]; intros s; cbn [stripPrefix].
  - by intros [= ->].
  - destruct s as [|b s]; [done |].
    destruct (eqb_ascii a b) eqn:E; [| done].
    apply eqb_ascii_true in E as ->. intros ->%IH. by rewrite app_cons.
Qed.

Lemma startsWith_app p s : startsWith p (p +:+ s) = true.
Proof.
  induction p as [|a p IH]; [by destruct s |].
  rewrite app_cons. cbn [startsWith]. by rewrite eqb_ascii_refl.
Qed.

Lemma startsWith_true p s : startsWith p s = true -> exists r, s = p +:+ r.
Proof.
  revert s. induction p as [|a p IH]; intros s.
  - intros _. by exists s.
  - destruct s as [|b s]; [done |]. cbn [startsWith].
    intros [->%eqb_ascii_true [r ->]%IH]%andb_prop. by exists r.
Qed.

(** *** The lazy group closed by one code unit *)

Lemma lazyUntil_unfold close s :
  lazyUntil close s
  = if startsWith close s then Some EmptyString
    else match s with
         | EmptyString => None
         | String c s' => String c <$> lazyUntil close s'
         end.
Proof. by destruct s. Qed.

Lemma lazyUntil_unit_found c g rest :
  hasUnit c g = false ->
  lazyUntil (String c EmptyString) (g +:+ String c rest) = Some g.
Proof.
  induction g as [|a g IH]; rewrite ?app_nil_l, ?app_cons.
  - intros _. rewrite lazyUntil_unfold. cbn [startsWith].
    by rewrite eqb_ascii_refl.
  - cbn [hasUnit]. intros [Hca Hg]%orb_false_elim.
    rewrite lazyUntil_unfold. cbn [startsWith]. rewrite Hca. cbn [andb].
    by rewrite (IH Hg).
Qed.

Lemma lazyUntil_unit_sound c s g :
  lazyUntil (String c EmptyString) s = Some g ->
  hasUnit c g = false /\ exists rest, s = g +:+ String c rest.
Proof.
  revert g. induction s as [|a s IH]; intros g; rewrite lazyUntil_unfold.
  - done.
  - cbn [startsWith]. destruct (eqb_ascii c a) eqn:E; cbn [andb].
    + apply eqb_ascii_true in E as ->. intros [= <-]. split; [done |].
      by exists s.
    + destruct (lazyUntil (String c EmptyString) s) as [g0|]; [| done].
      intros [= <-]. destruct (IH g0 eq_refl) as [Hg0 [rest ->]].
      split; [cbn [hasUnit]; by rewrite E, Hg0 | by exists rest].
Qed.

Lemma lazyUntil_unit_complete c mid rest :
  is_Some (lazyUntil (String c EmptyString) (mid +:+ String c rest)).
Proof.
  induction mid as [|a mid IH]; rewrite ?app_nil_l, ?app_cons;
    rewrite lazyUntil_unfold; cbn [startsWith].
  - by rewrite eqb_ascii_refl.
  - destruct (eqb_ascii c a); cbn [andb]; [done |].
    destruct IH as [g ->]. done.
Qed.

(** *** The greedy group *)

Lemma greedyUntil_unfold close c s :
  greedyUntil close (String c s)
  = match greedyUntil close s with
    | Some g => Some (String c g)
    | None => if startsWith close (String c s) then Some EmptyString else None
    end.
Proof. reflexivity. Qed.

Lemma greedyUntil_sound close s g :
  greedyUntil close s = Some g -> exists post, s = g +:+ close +:+ post.
Proof.
  revert g. induction s as [|c s IH]; intros g.
  - cbn [greedyUntil]. destruct (startsWith close EmptyString) eqn:E; [| done].
    intros [= <-]. apply startsWith_true in E as [r Hr]. by exists r.
  - rewrite greedyUntil_unfold.
    destruct (greedyUntil close s) as [g0|].
    + intros [= <-]. destruct (IH g0 eq_refl) as [post ->]. by exists post.
    + destruct (startsWith close (String c s)) eqn:E; [| done].
      intros [= <-]. apply startsWith_true in E as [r Hr]. by exists r.
Qed.

Lemma greedyUntil_complete close g post :
  is_Some (greedyUntil close (g +:+ close +:+ post)).
Proof.
  induction g as [|c g IH]; rewrite ?app_nil_l, ?app_cons.
  - destruct (close +:+ post) as [|c s] eqn:E.
    + cbn [greedyUntil]. rewrite <- E, startsWith_app. done.
    + rewrite greedyUntil_unfold. destruct (greedyUntil close s); [done |].
      rewrite <- E, startsWith_app. done.
  - rewrite greedyUntil_unfold. destruct IH as [g0 ->]. done.
Qed.

Lemma greedyUntil_longest close s g g' post' :
  greedyUntil close s = Some g ->
  s = g' +:+ close +:+ post' ->
  String.length g' <= String.length g.
Proof.
  revert g g'. induction s as [|c s IH]; intros g g' Hg Hs.
  - destruct g'; [simpl; lia | done].
  - rewrite greedyUntil_unfold in Hg.
    destruct g' as [|c' g']; [simpl; lia |].
    rewrite app_cons in Hs. injection Hs as -> ->.
    destruct (greedyUntil close (g' +:+ close +:+ post')) as [g0|] eqn:E.
    + injection Hg as <-. simpl. apply le_n_S. by eapply IH.
    + by destruct (greedyUntil_complete close g' post') as [? ?]; congruence.
Qed.

(** *** The scan of the start positions *)

Lemma exec_unfold opening group s :
  exec opening group s
  = match stripPrefix opening s ≫= group with
    | Some g => Some g
    | None =>
        match s with
        | EmptyString => None
        | String _ s' => exec opening group s'
        end
    end.
Proof. by destruct s. Qed.

Lemma exec_here opening group s rest g :
  stripPrefix opening s = Some rest -> group rest = Some g ->
  exec opening group s = Some g.
Proof. intros H1 H2. rewrite exec_unfold, H1. cbn. by rewrite H2. Qed.

Lemma exec_next opening group c s :
  stripPrefix opening (String c s) ≫= group = None ->
  exec opening group (String c s) = exec opening group s.
Proof. intros H. by rewrite exec_unfold, H. Qed.

Lemma exec_skip_unit c o group pre s :
  hasUnit c pre = false ->
  exec (String c o) group (pre +:+ s) = exec (String c o) group s.
Proof.
  induction pre as [|a pre IH]; [done |].
  cbn [hasUnit]. intros [Hca Hpre]%orb_false_elim.
  rewrite app_cons, exec_next; [by apply IH |].
  cbn [stripPrefix]. by rewrite Hca.
Qed.

Lemma exec_sound opening group s g :
  exec opening group s = Some g ->
  exists pre rest, s = pre +:+ opening +:+ rest /\ group rest = Some g.
Proof.
  induction s as [|c s IH]; rewrite exec_unfold.
  - destruct (stripPrefix opening EmptyString) as [rest|] eqn:E; cbn; [| done].
    destruct (group rest) as [g0|] eqn:Eg; [| done]. intros [= <-].
    exists EmptyString, rest. split; [exact (stripPrefix_Some _ _ _ E) | done].
  - destruct (stripPrefix opening (String c s)) as [rest|] eqn:E; cbn.
    + destruct (group rest) as [g0|] eqn:Eg.
      * intros [= <-]. exists EmptyString, rest.
        split; [exact (stripPrefix_Some _ _ _ E) | done].
      * intros (pre & rest' & -> & Hg)%IH. by exists (String c pre), rest'.
    + intros (pre & rest' & -> & Hg)%IH. by exists (String c pre), rest'.
Qed.

Lemma exec_complete opening group pre rest :
  is_Some (group rest) ->
  is_Some (exec opening group (pre +:+ opening +:+ rest)).
Proof.
  intros [g Hg]. induction pre as [|c pre IH]; rewrite ?app_nil_l, ?app_cons.
  - by rewrite (exec_here _ _ _ rest g (stripPrefix_app _ _) Hg).
  - rewrite exec_unfold. destruct (_ ≫= _); [done | exact IH].
Qed.

End RegexFacts.

(** ** The patterns on a well-formed feed *)

Module FeedFacts.
Import JSString Regex Promise Value Parser Feed.
Import JSStringFacts StageFacts RecordFacts LineFacts TextFacts RegexFacts.

Lemma blank_is_not c w :
  isWhiteSpace w = true -> isWhiteSpace c = false -> eqb_ascii c w = false.
Proof.
  intros Hw Hc. apply eqb_ascii_false. intros ->. congruence.
Qed.

Lemma startsWith_absent c p s :
  hasUnit c s = false -> hasUnit c p = true -> startsWith p s = false.
Proof.
  revert s. induction p as [|a p IH]; intros s Hs Hp; [done |].
  destruct s as [|b s]; [done |]. cbn [startsWith].
  cbn [hasUnit] in Hs, Hp. apply orb_false_elim in Hs as [Hcb Hs].
  destruct (eqb_ascii a b) eqn:E; [| done]. cbn [andb].
  apply eqb_ascii_true in E as ->. rewrite Hcb in Hp. by apply IH.
Qed.

Lemma startsWith_cons a p b s :
  startsWith (String a p) (String b s) = eqb_ascii a b && startsWith p s.
Proof. reflexivity. Qed.

Lemma greedyUntil_absent c o s :
  hasUnit c s = false -> greedyUntil (String c o) s = None.
Proof.
  induction s as [|a s IH]; [done |].
  cbn [hasUnit]. intros [Hca Hs]%orb_false_elim.
  rewrite greedyUntil_unfold, (IH Hs). cbn [startsWith]. by rewrite Hca.
Qed.

Lemma greedyUntil_app close pre s g :
  greedyUntil close s = Some g ->
  greedyUntil close (pre +:+ s) = Some (pre +:+ g).
Proof.
  intros Hg. induction pre as [|c pre IH]; [done |].
  by rewrite !app_cons, greedyUntil_unfold, IH.
Qed.

(** The greedy group stops at the end marker when nothing after the marker
    has a hash. *)
Lemma greedyUntil_end body tail :
  hasUnit "#" tail = false ->
  greedyUntil "#END#" (body +:+ "#END#" +:+ tail) = Some body.
Proof.
  intros Htail.
  rewrite (greedyUntil_app _ _ _ EmptyString); [by rewrite app_empty_r |].
  change ("#END#" +:+ tail)
    with (String "#" (String "E" (String "N" (String "D" (String "#" tail))))).
  assert (greedyUntil "#END#" (String "#" tail) = None) as H1.
  { rewrite greedyUntil_unfold, (greedyUntil_absent _ _ _ Htail).
    rewrite startsWith_cons, (startsWith_absent "#" "END#" tail) by done.
    by rewrite andb_false_r. }
  assert (greedyUntil "#END#" (String "D" (String "#" tail)) = None) as H2
    by by rewrite greedyUntil_unfold, H1.
  assert (greedyUntil "#END#" (String "N" (String "D" (String "#" tail))) = None)
    as H3 by by rewrite greedyUntil_unfold, H2.
  assert (greedyUntil "#END#"
            (String "E" (String "N" (String "D" (String "#" tail)))) = None)
    as H4 by by rewrite greedyUntil_unfold, H3.
  rewrite greedyUntil_unfold, H4.
  change (String "#" (String "E" (String "N" (String "D" (String "#" tail)))))
    with ("#END#" +:+ tail).
  by rewrite startsWith_app.
Qed.

Section OnFeed.

Variables (headerText : string) (eof eor : ascii).
Variables (names : list string) (rows : list (list string)) (tail : string).

Hypothesis header_blank : startsBlank headerText = true.
Hypothesis header_hashless : hasUnit "#" headerText = false.
Hypothesis definitions_hashless :
  hasUnit "#" (definitionSection eof eor names) = false.
Hypothesis tail_hashless : hasUnit "#" tail = false.

Lemma headerPattern_feed :
  headerPattern (feedText headerText eof eor names rows tail) = Some headerText.
Proof.
  unfold headerPattern, feedText.
  eapply exec_here; [apply stripPrefix_app |].
  set (rest := definitionSection _ _ _ +:+ _).
  change ("#DEFINITION#" +:+ rest) with (String "#" ("DEFINITION#" +:+ rest)).
  by apply lazyUntil_unit_found.
Qed.

(** The scan for a marker that starts with a hash and a capital D passes
    over the header marker and the header section. *)
Lemma exec_past_header o group rest :
  exec (String "#" (String "D" o)) group ("#HEADER#" +:+ headerText +:+ rest)
  = exec (String "#" (String "D" o)) group rest.
Proof.
  change ("#HEADER#" +:+ headerText +:+ rest)
    with (String "#" ("HEADER" +:+ String "#" (headerText +:+ rest))).
  rewrite exec_next by reflexivity.
  rewrite (exec_skip_unit "#" _ _ "HEADER") by reflexivity.
  rewrite exec_next.
  - by apply exec_skip_unit.
  - destruct headerText as [|w t]; [done |]. cbn [startsBlank] in header_blank.
    rewrite app_cons. cbn [stripPrefix].
    change (eqb_ascii "#" "#") with true. cbn iota.
    by rewrite (blank_is_not "D" w).
Qed.

Lemma definitionPattern_feed :
  definitionPattern (feedText headerText eof eor names rows tail)
  = Some (definitionSection eof eor names).
Proof.
  unfold definitionPattern, feedText. rewrite exec_past_header.
  eapply exec_here; [apply stripPrefix_app |].
  set (rest := dataSection _ _ _ +:+ _).
  change ("#DATA#" +:+ rest) with (String "#" ("DATA#" +:+ rest)).
  by apply lazyUntil_unit_found.
Qed.

Lemma dataPattern_feed :
  dataPattern (feedText headerText eof eor names rows tail)
  = Some (dataSection eof eor rows).
Proof.
  unfold dataPattern, feedText. rewrite exec_past_header.
  set (rest := "#DATA#" +:+ _).
  change ("#DEFINITION#" +:+ definitionSection eof eor names +:+ rest)
    with (String "#" ("DEFINITION"
                        +:+ String "#" (definitionSection eof eor names +:+ rest))).
  rewrite exec_next by reflexivity.
  rewrite (exec_skip_unit "#" _ _ "DEFINITION") by reflexivity.
  rewrite exec_next by reflexivity.
  rewrite exec_skip_unit by done.
  subst rest. eapply exec_here; [apply stripPrefix_app |].
  by apply greedyUntil_end.
Qed.

End OnFeed.

(** *** What the stages make of the sections *)

Lemma definitionsOf_section h eof eor names :
  getProperty h "EOF" = Some (String eof EmptyString) ->
  getProperty h "EOR" = Some (String eor EmptyString) ->
  isWhiteSpace eof = false ->
  isWhiteSpace eor = false ->
  eof <> eor ->
  Forall (fun n => hasUnit eof n = false /\ trim n = n) names ->
  definitionsOf h (definitionSection eof eor names) = names.
Proof.
  intros Heof Heor Hwf Hwr Hne Hnames. unfold definitionsOf, definitionSection.
  rewrite Heof, Heor. cbn [split].
  rewrite (definition_pieces eof eor names LF LF) by done.
  rewrite last_snoc, bool_decide_eq_true_2 by done.
  apply List.removelast_last.
Qed.

Lemma validDataIn_section h eof eor rows :
  getProperty h "EOR" = Some (String eor EmptyString) ->
  isWhiteSpace eof = false ->
  isWhiteSpace eor = false ->
  eof <> eor ->
  Forall (fun row => cleanRow row
                     /\ Forall (fun v => hasUnit eor v = false) row) rows ->
  validDataIn h (dataSection eof eor rows) = joinEnded eof <$> rows.
Proof.
  intros Heor Hwf Hwr Hne Hrows. unfold validDataIn, dataSection.
  rewrite Heor, validDataOf_filter. cbn [split].
  by apply data_pieces.
Qed.

End FeedFacts.

(** ** Facts about the test of the path *)

Module PathFacts.
Import JSString Regex Promise Value Parser Feed.
Import JSStringFacts StageFacts LineFacts TextFacts.

Lemma splitScan_unit_app c a t :
  splitScan (String c EmptyString) 0 (a +:+ String c t)
  = (splitScan (String c EmptyString) 0 a
       ++ splitScan (String c EmptyString) 0 t)%list.
Proof.
  induction a as [|x a IH]; rewrite ?app_nil_l, ?app_cons.
  - cbn [splitScan startsWith]. by rewrite eqb_ascii_refl.
  - cbn [splitScan startsWith]. destruct (eqb_ascii c x); cbn [andb].
    + cbn [String.length Nat.sub]. by rewrite IH.
    + rewrite IH.
      pose proof (splitScan_nonempty (String c EmptyString) 0 a) as Hne.
      by destruct (splitScan (String c EmptyString) 0 a).
Qed.

Lemma concat_splitScan c s acc :
  fold_left (fun accum curr => accum +:+ curr)
    (splitScan (String c EmptyString) 0 s) acc
  = acc +:+ withoutUnit c s.
Proof.
  revert acc. induction s as [|a s IH]; intros acc.
  - cbn. by rewrite app_empty_r.
  - cbn [splitScan startsWith withoutUnit].
    destruct (eqb_ascii c a); cbn [andb].
    + cbn [String.length Nat.sub fold_left]. by rewrite app_empty_r, IH.
    + specialize (IH (acc +:+ String a EmptyString)).
      pose proof (splitScan_nonempty (String c EmptyString) 0 s) as Hne.
      destruct (splitScan (String c EmptyString) 0 s) as [|p ps]; [done |].
      cbn [fold_left] in *.
      rewrite app_assoc, app_cons, app_nil_l in IH. rewrite IH.
      by rewrite app_assoc.
Qed.

Lemma last_unit_decompose c s :
  hasUnit c s = true ->
  exists pre ext, s = pre +:+ String c ext /\ hasUnit c ext = false.
Proof.
  induction s as [|a s IH]; [done |]. cbn [hasUnit].
  destruct (hasUnit c s) eqn:Hs.
  - intros _. destruct IH as (pre & ext & -> & Hext); [done |].
    by exists (String a pre), ext.
  - rewrite orb_false_r. intros ->%eqb_ascii_true.
    by exists EmptyString, s.
Qed.

(** *** Upper case *)

Lemma upperUnit_head x c s s' :
  (x = "B" \/ x = "L" \/ x = "M")%char ->
  upperUnit c +:+ s = String x s' ->
  s = s' /\ (c = x \/ nat_of_ascii c = nat_of_ascii x + 32).
Proof.
  intros Hx H.
  destruct c as [[] [] [] [] [] [] [] []];
    vm_compute in H; destruct Hx as [-> | [-> | ->]];
    try discriminate; injection H as <-; (split; [reflexivity |]);
    first [by left | by right].
Qed.

Lemma upperUnit_nonempty c s : upperUnit c +:+ s <> EmptyString.
Proof.
  unfold upperUnit. by repeat case_match.
Qed.

Lemma lower_case_of x c :
  nat_of_ascii c = nat_of_ascii x + 32 -> c = ascii_of_nat (nat_of_ascii x + 32).
Proof. intros <-. by rewrite ascii_nat_embedding. Qed.

Lemma toUpperCase_BLM ext : toUpperCase ext = "BLM" <-> ext ∈ blmSpellings.
Proof.
  split.
  - destruct ext as [|c1 [|c2 [|c3 ext]]]; cbn [toUpperCase]; try done.
    + intros H. apply (upperUnit_head "B") in H as [H _]; [done | auto].
    + intros H. apply (upperUnit_head "B") in H as [H _]; [| auto].
      apply (upperUnit_head "L") in H as [H _]; [done | auto].
    + intros H. apply (upperUnit_head "B") in H as [H H1]; [| auto].
      apply (upperUnit_head "L") in H as [H H2]; [| auto].
      apply (upperUnit_head "M") in H as [H H3]; [| auto].
      destruct ext as [|c4 ext].
      2:{ cbn [toUpperCase] in H. by apply upperUnit_nonempty in H. }
      unfold blmSpellings.
      destruct H1 as [-> | ->%lower_case_of], H2 as [-> | ->%lower_case_of],
        H3 as [-> | ->%lower_case_of]; vm_compute; set_solver.
  - unfold blmSpellings. rewrite !elem_of_cons, elem_of_nil.
    intros [-> | [-> | [-> | [-> | [-> | [-> | [-> | [-> | []]]]]]]]];
      reflexivity.
Qed.

(** *** The promise of validateFileHandle on a string *)

Lemma nonempty_string_guard c s :
  isUndefined (VString (String c s))
  || negb (String.eqb (typeOf (VString (String c s))) "string")
  || negb (hasOwnLength (VString (String c s)))
  || bool_decide (lengthOf (VString (String c s)) = Some 0)
  = false.
Proof. cbn. by rewrite bool_decide_eq_false_2. Qed.

Lemma isValid_string s :
  isValid (VString s)
  = let l := split (Some ".") s in
    (2 <=? length l)%nat
    && (0 <? String.length
              (fold_left (fun accum curr => accum +:+ curr)
                 (removelast l) EmptyString))%nat
    && bool_decide (toUpperCase <$> last l = Some "BLM").
Proof.
  destruct s as [|c s]; [reflexivity |].
  unfold isValid, validateFileHandle, validateExecutor.
  rewrite promise_withCatch. unfold newPromise.
  rewrite nonempty_string_guard.
  cbn [callSplit]. cbn zeta. step_code.
  match goal with |- context [(if ?c then _ else _) _] => destruct c end;
    by step_code.
Qed.

End PathFacts.

(** ** Further properties of the code *)

Module Extras.
Import JSString Regex Promise Value Parser Samples.
Import Feed.
Import JSStringFacts StageFacts PipelineFacts RecordFacts OutcomeFacts LineFacts.
Import TextFacts RegexFacts FeedFacts PathFacts.


(** X2.  A result reaches the callback exactly when the handle passes
    validation, the file is read and header, definitions and data are all
    extracted; the result is then the list that getData resolved with. *)
Theorem result_delivered_iff readStream fileHandle data :
  CallbackResult data
    ∈ delivered (parseBlmFile readStream fileHandle PlainFunction)
  <-> isValid fileHandle = true
      /\ exists fileStr header definitions,
           readStream fileHandle = StreamEnd fileStr
           /\ promise (getHeader fileStr) = Fulfilled header
           /\ promise (getDefinitions fileStr (Some header)) = Fulfilled definitions
           /\ promise (getData fileStr (Some header) (Some definitions))
              = Fulfilled data.
Proof.
  split.
  - intros (fileStr & header & definitions & Hv & Hr & Hh & Hd & Hdata)
      %parseBlmFile_result_inv.
    split; [done |]. by exists fileStr, header, definitions.
  - intros (Hv & fileStr & header & definitions & Hr & Hh & Hd & Hdata).
    rewrite (parseBlmFile_success _ _ _ _ _ _ Hv Hr Hh Hd Hdata).
    apply list_elem_of_here.
Qed.

(** X3.  For one call of parseBlmFile, made while no other call is in
    flight: every error that reaches the callback is the composed error of
    one of the four stages that read and extract: the read stage (its
    message, which quotes the handle converted to a string, alone for a
    failure of the stream, whose own message is empty, or followed by the
    message of the exception that opening the stream threw), the header
    stage, the definition stage or the data stage.  The error raised for
    an invalid handle and the two guard errors of getData never reach
    it. *)
Theorem delivered_errors readStream fileHandle finishCallback e :
  CallbackError e
    ∈ delivered (parseBlmFile readStream fileHandle finishCallback) ->
  (exists shown,
      toString fileHandle = Normal shown
      /\ readStream fileHandle = StreamError
      /\ e = mkError PlainError (readMessage shown))
  \/ (exists shown cause,
        toString fileHandle = Normal shown
        /\ readStream fileHandle = CreateThrows cause
        /\ e = composite (readMessage shown) cause)
  \/ e = composite headerMessage nullGroupError
  \/ e = composite definitionsMessage headerDataIncorrect
  \/ e = composite definitionsMessage nullGroupError
  \/ e = composite dataMessage nullGroupError
  \/ e = composite dataMessage lengthMismatch.
Proof.
  destruct finishCallback; [| by intros ?%elem_of_nil].
  rewrite parseBlmFile_delivered, streamInData_cases. unfold failure.
  destruct (readStream fileHandle) as [fileStr| |cause] eqn:Hr.
  - destruct (promise (getHeader fileStr)) as [|header|eh] eqn:Hh;
      [by intros ?%elem_of_nil | |].
    2:{ intros [= ->]%list_elem_of_singleton.
        apply getHeader_rejected_inv in Hh as [_ ->]. tauto. }
    destruct (promise (getDefinitions fileStr (Some header)))
      as [|definitions|ed] eqn:Hd; [by intros ?%elem_of_nil | |].
    2:{ intros [= ->]%list_elem_of_singleton.
        apply getDefinitions_rejected_inv in Hd as [[_ ->] | (_ & _ & ->)];
          tauto. }
    pose proof (getDefinitions_fulfilled_complete _ _ _ Hd) as Hc.
    destruct (promise (getData fileStr (Some header) (Some definitions)))
      as [|data|edata] eqn:Hdata; [by intros ?%elem_of_nil | |].
    + destruct (isValid fileHandle);
        [by intros [=]%list_elem_of_singleton | by intros ?%elem_of_nil].
    + intros [= ->]%list_elem_of_singleton.
      apply (getData_rejected_inv _ _ _ _ Hc) in Hdata as [[_ ->] | [_ ->]];
        tauto.
  - destruct (streamMessage_cases fileHandle)
      as [(shown & Hs & ->) | (thrown & Hs & ->)]; [| by intros ?%elem_of_nil].
    intros [= ->]%list_elem_of_singleton. left. exists shown.
    split; [done |]. split; [done |].
    unfold composite. cbn [message]. by rewrite app_empty_r.
  - destruct (streamMessage_cases fileHandle)
      as [(shown & Hs & ->) | (thrown & Hs & ->)]; [| by intros ?%elem_of_nil].
    intros [= ->]%list_elem_of_singleton. right; left. by exists shown, cause.
Qed.

Lemma delivered_errors_witness :
  (exists shown,
      toString (VString "feed.blm") = Normal shown
      /\ onDisk "feed.blm" shortRecordFile (VString "feed.blm") = StreamError
      /\ composite dataMessage lengthMismatch
         = mkError PlainError (readMessage shown))
  \/ (exists shown cause,
        toString (VString "feed.blm") = Normal shown
        /\ onDisk "feed.blm" shortRecordFile (VString "feed.blm")
           = CreateThrows cause
        /\ composite dataMessage lengthMismatch
           = composite (readMessage shown) cause)
  \/ composite dataMessage lengthMismatch = composite headerMessage nullGroupError
  \/ composite dataMessage lengthMismatch
     = composite definitionsMessage headerDataIncorrect
  \/ composite dataMessage lengthMismatch
     = composite definitionsMessage nullGroupError
  \/ composite dataMessage lengthMismatch = composite dataMessage nullGroupError
  \/ composite dataMessage lengthMismatch = composite dataMessage lengthMismatch.
Proof.
  apply (delivered_errors (onDisk "feed.blm" shortRecordFile)
           (VString "feed.blm") PlainFunction).
  vm_compute. apply list_elem_of_here.
Defined.

(** *** Header lines *)

(** X4.  For a header line with exactly one colon, the property is the text
    before the colon and its value the text after it, both trimmed and
    unquoted; reading the property back gives that value, and every other
    property of the header is left as it was. *)
Theorem header_line_one_colon accumulator p v :
  hasUnit ":" p = false ->
  hasUnit ":" v = false ->
  unquote (trim p) <> "__proto__" ->
  getProperty (headerLine accumulator (p +:+ ":" +:+ v)) (unquote (trim p))
  = Some (unquote (trim v))
  /\ forall k, k <> unquote (trim p) ->
               headerLine accumulator (p +:+ ":" +:+ v) !! k = accumulator !! k.
Proof.
  intros Hp Hv Hk. rewrite (headerLine_one_colon _ _ _ Hp Hv). split.
  - unfold getProperty. by rewrite js_set_lookup_eq.
  - intros k Hne. by apply js_set_lookup_ne.
Qed.

Lemma header_line_one_colon_witness :
  getProperty (headerLine ∅ ("Version " +:+ ":" +:+ " 3")) (unquote (trim "Version "))
  = Some (unquote (trim " 3"))
  /\ forall k, k <> unquote (trim "Version ") ->
               headerLine ∅ ("Version " +:+ ":" +:+ " 3") !! k
               = (∅ : Header) !! k.
Proof.
  apply header_line_one_colon.
  - vm_compute; reflexivity.
  - vm_compute; reflexivity.
  - vm_compute. discriminate.
Defined.

(** X5.  When the text after the only colon of a header line is, once
    trimmed, a text between two quote characters (single or double, not
    necessarily the same), the value stored is exactly the text between
    them: white space inside the quotes is kept. *)
Theorem quoted_value_kept_verbatim accumulator p v a d b :
  hasUnit ":" p = false ->
  hasUnit ":" v = false ->
  trim v = String a (d +:+ String b EmptyString) ->
  isQuote a = true ->
  isQuote b = true ->
  headerLine accumulator (p +:+ ":" +:+ v)
  = js_set (unquote (trim p)) (Some d) accumulator.
Proof.
  intros Hp Hv Htrim Ha Hb. rewrite (headerLine_one_colon _ _ _ Hp Hv).
  by rewrite Htrim, unquote_quoted.
Qed.

Lemma quoted_value_kept_verbatim_witness :
  headerLine ∅ ("EOF " +:+ ":" +:+ " ' ^ ' ")
  = js_set (unquote (trim "EOF ")) (Some " ^ ") ∅.
Proof.
  apply (quoted_value_kept_verbatim ∅ "EOF " " ' ^ ' " "'" " ^ " "'");
    vm_compute; reflexivity.
Defined.

(** X6.  When a property is declared by several header lines, the last
    declaration decides: if the lines of the header section are some
    lines, then a line with one colon, then lines none of which declares
    the property of that line (blank lines, lines that declare other
    properties), getHeader resolves with a header in which that property
    has the value of that line. *)
Theorem last_declaration_decides fileStr headerStr before p v after :
  headerPattern fileStr = Some headerStr ->
  split (Some LF) headerStr = (before ++ [p +:+ ":" +:+ v] ++ after)%list ->
  hasUnit ":" p = false ->
  hasUnit ":" v = false ->
  unquote (trim p) <> "__proto__" ->
  Forall (fun l => declared l <> Some (unquote (trim p))) after ->
  exists h,
    promise (getHeader fileStr) = Fulfilled h
    /\ getProperty h (unquote (trim p)) = Some (unquote (trim v)).
Proof.
  intros Hm Hsplit Hp Hv Hk Hafter. eexists. split.
  - by apply getHeader_present.
  - unfold getProperty. rewrite Hsplit, !fold_left_app.
    rewrite (fold_headerLine_undeclared _ _ _ Hafter). cbn [fold_left].
    rewrite (headerLine_one_colon _ _ _ Hp Hv).
    by rewrite js_set_lookup_eq.
Qed.

Lemma last_declaration_decides_witness :
  exists h,
    promise (getHeader redeclaredHeaderFile) = Fulfilled h
    /\ getProperty h (unquote (trim "EOF")) = Some (unquote (trim "|")).
Proof.
  apply (last_declaration_decides redeclaredHeaderFile
           (LF +:+ "EOF:^" +:+ LF +:+ "EOR:;" +:+ LF +:+ "EOF:|" +:+ LF
               +:+ "Version:3" +:+ LF)
           [EmptyString; "EOF:^"; "EOR:;"] "EOF" "|"
           ["Version:3"; EmptyString]).
  - vm_compute; reflexivity.
  - vm_compute; reflexivity.
  - vm_compute; reflexivity.
  - vm_compute; reflexivity.
  - discriminate.
  - repeat constructor; vm_compute; discriminate.
Defined.

(** X7.  The header that getHeader resolves with never has a property named
    [__proto__], whatever the header lines say. *)
Theorem header_has_no_proto_key fileStr h :
  promise (getHeader fileStr) = Fulfilled h ->
  h !! "__proto__" = None.
Proof.
  destruct (headerPattern fileStr) as [headerStr|] eqn:Hm.
  - rewrite (getHeader_present _ _ Hm). intros [= <-].
    by rewrite fold_headerLine_proto.
  - by rewrite (getHeader_missing _ Hm).
Qed.

Lemma header_has_no_proto_key_witness :
  ({[ "EOF" := Some "|"; "EOR" := Some ";" ]} : Header) !! "__proto__" = None.
Proof.
  apply (header_has_no_proto_key protoHeaderFile). vm_compute; reflexivity.
Defined.

(** X8.  A header section that holds nothing but white space gives the
    empty header, without an error from the header stage; a parse of such
    a text then ends in the definition stage, with its header error. *)
Theorem blank_header_section fileStr headerStr :
  headerPattern fileStr = Some headerStr ->
  allWhiteSpace headerStr = true ->
  promise (getHeader fileStr) = Fulfilled ∅
  /\ forall readStream fileHandle,
       readStream fileHandle = StreamEnd fileStr ->
       delivered (parseBlmFile readStream fileHandle PlainFunction)
       = failure definitionsMessage headerDataIncorrect.
Proof.
  intros Hm Hws.
  assert (promise (getHeader fileStr) = Fulfilled ∅) as Hh.
  { rewrite (getHeader_present _ _ Hm).
    by rewrite fold_headerLine_blank by by apply split_allWhiteSpace. }
  split; [done |]. intros readStream fileHandle Hr.
  rewrite (parseBlmFile_text _ _ _ Hr), Hh.
  by rewrite getDefinitions_incomplete.
Qed.

Lemma blank_header_section_witness :
  promise (getHeader blankSectionsFile) = Fulfilled ∅
  /\ forall readStream fileHandle,
       readStream fileHandle = StreamEnd blankSectionsFile ->
       delivered (parseBlmFile readStream fileHandle PlainFunction)
       = failure definitionsMessage headerDataIncorrect.
Proof.
  apply (blank_header_section blankSectionsFile (LF +:+ " " +:+ LF));
    vm_compute; reflexivity.
Defined.

(** *** Records *)

(** X9.  In a result delivered to the callback, every key of every record
    is one of the field names that getDefinitions resolved with, and no
    record has a key named [__proto__]. *)
Theorem record_keys_are_field_names readStream fileHandle data :
  CallbackResult data
    ∈ delivered (parseBlmFile readStream fileHandle PlainFunction) ->
  exists fileStr h defs,
    readStream fileHandle = StreamEnd fileStr
    /\ promise (getHeader fileStr) = Fulfilled h
    /\ promise (getDefinitions fileStr (Some h)) = Fulfilled defs
    /\ Forall (fun r : DataObject =>
                 forall k, is_Some (r !! k) -> k ∈ defs /\ k <> "__proto__")
         data.
Proof.
  intros (fileStr & h & defs & Hv & Hr & Hh & Hd & Hdata)%parseBlmFile_result_inv.
  exists fileStr, h, defs. repeat split; try done.
  pose proof (getDefinitions_fulfilled_complete _ _ _ Hd) as Hc.
  destruct (getData_fulfilled_inv _ _ _ _ Hc Hdata) as (dataStr & Hm & Hall & ->).
  apply Forall_fmap, Forall_forall. intros elem Helem k. cbn.
  apply dataObjOf_keys. by apply Hall.
Qed.

Lemma record_keys_are_field_names_witness :
  exists fileStr h defs,
    onDisk "feed.blm" terminatedFile (VString "feed.blm") = StreamEnd fileStr
    /\ promise (getHeader fileStr) = Fulfilled h
    /\ promise (getDefinitions fileStr (Some h)) = Fulfilled defs
    /\ Forall (fun r : DataObject =>
                 forall k, is_Some (r !! k) -> k ∈ defs /\ k <> "__proto__")
         [ {[ "name" := "Alice"; "address" := "123 Rd"; "price" := "100000" ]} ].
Proof.
  apply (record_keys_are_field_names (onDisk "feed.blm" terminatedFile)
           (VString "feed.blm")).
  vm_compute. apply list_elem_of_here.
Defined.

(** X10.  When the field names are pairwise distinct, none of them is
    [__proto__] and every record passes the arity test, getData resolves
    with one object per non-empty record candidate, in order, and each
    object is the positional pairing of the field names with the values of
    its record. *)
Theorem records_pair_names_with_values fileStr h defs dataStr :
  headerIncomplete (Some h) = false ->
  dataPattern fileStr = Some dataStr ->
  NoDup defs ->
  "__proto__" ∉ defs ->
  Forall (fun elem => length (dataArrOf (getProperty h "EOF") elem) = length defs)
    (validDataIn h dataStr) ->
  promise (getData fileStr (Some h) (Some defs))
  = Fulfilled
      ((fun elem =>
          list_to_map (zip defs (dataArrOf (getProperty h "EOF") elem)))
         <$> validDataIn h dataStr).
Proof.
  intros Hc Hm Hnd Hproto Hall. rewrite (getData_present _ _ _ _ Hc Hm).
  rewrite Forall_forall in Hall.
  assert (forallb (arityOk (getProperty h "EOF") defs) (validDataIn h dataStr)
          = true) as ->.
  { apply forallb_forall. intros elem Helem%list_elem_of_In.
    unfold arityOk. apply Nat.eqb_eq. by apply Hall. }
  f_equal. apply list_fmap_ext. intros i elem Helem%list_elem_of_lookup_2.
  apply dataObjOf_zip; [done | done |]. by rewrite (Hall _ Helem).
Qed.

Lemma records_pair_names_with_values_witness :
  promise (getData terminatedFile
             (Some {[ "EOF" := Some "|"; "EOR" := Some ";" ]})
             (Some ["name"; "address"; "price"]))
  = Fulfilled
      ((fun elem =>
          list_to_map
            (zip ["name"; "address"; "price"]
               (dataArrOf
                  (getProperty {[ "EOF" := Some "|"; "EOR" := Some ";" ]} "EOF")
                  elem)))
         <$> validDataIn {[ "EOF" := Some "|"; "EOR" := Some ";" ]}
               (LF +:+ "Alice|123 Rd|100000|;" +:+ LF)).
Proof.
  apply records_pair_names_with_values.
  - vm_compute; reflexivity.
  - vm_compute; reflexivity.
  - by apply (bool_decide_unpack _); vm_compute.
  - by apply (bool_decide_unpack _); vm_compute.
  - vm_compute. repeat constructor.
Defined.

(** X11.  A data section that holds nothing but white space is not an
    error: with a header that declares both separators, getData resolves
    with the empty list, whatever the field definitions are. *)
Theorem blank_data_section fileStr h defs dataStr :
  headerIncomplete (Some h) = false ->
  dataPattern fileStr = Some dataStr ->
  allWhiteSpace dataStr = true ->
  promise (getData fileStr (Some h) (Some defs)) = Fulfilled [].
Proof.
  intros Hc Hm Hws. rewrite (getData_present _ _ _ _ Hc Hm).
  assert (validDataIn h dataStr = []) as ->; [| done].
  unfold validDataIn. rewrite validDataOf_filter.
  by apply filter_blank, split_allWhiteSpace.
Qed.

Lemma blank_data_section_witness :
  promise (getData blankSectionsFile
             (Some {[ "EOF" := Some "|"; "EOR" := Some ";" ]})
             (Some ["name"]))
  = Fulfilled [].
Proof.
  apply (blank_data_section blankSectionsFile _ _ (LF +:+ " " +:+ LF));
    vm_compute; reflexivity.
Defined.

(** *** Guards *)

(** X12.  The guards of getData decide its outcome before anything else:
    called without a header, or with a header that lacks EOF or EOR, it
    rejects with its header error whatever the text and the definitions
    are; called with a complete header and without definitions, it rejects
    with its definitions error whatever the text is.  What the executor
    does after the guard has rejected never changes that. *)
Theorem getData_guards fileStr header :
  (headerIncomplete header = true ->
   forall definitions,
     promise (getData fileStr header definitions) = Rejected headerDataUndefined)
  /\ (headerIncomplete header = false ->
      promise (getData fileStr header None) = Rejected definitionDataUndefined).
Proof.
  split.
  - intros Hh definitions. unfold getData. rewrite promise_withCatch.
    by apply newPromise_rejected, dataExecutor_header_guard.
  - intros Hh. unfold getData. rewrite promise_withCatch.
    by apply newPromise_rejected, dataExecutor_definitions_guard.
Qed.

Lemma getData_guards_witness :
  promise (getData terminatedFile None (Some ["name"]))
  = Rejected headerDataUndefined
  /\ promise (getData terminatedFile
                (Some {[ "EOF" := Some "|"; "EOR" := Some ";" ]}) None)
     = Rejected definitionDataUndefined.
Proof.
  split.
  - by apply (proj1 (getData_guards terminatedFile None)).
  - apply (proj2 (getData_guards terminatedFile
                    (Some {[ "EOF" := Some "|"; "EOR" := Some ";" ]}))).
    vm_compute; reflexivity.
Defined.

(** X13.  The guard of getDefinitions also covers a missing header object:
    called without a header, or with one that lacks EOF or EOR, it rejects
    with its header error whatever the text is. *)
Theorem getDefinitions_guard fileStr header :
  headerIncomplete header = true ->
  promise (getDefinitions fileStr header) = Rejected headerDataIncorrect.
Proof.
  intros Hh. unfold getDefinitions. rewrite promise_withCatch.
  by apply newPromise_rejected, definitionsExecutor_guard.
Qed.

Lemma getDefinitions_guard_witness :
  promise (getDefinitions terminatedFile None) = Rejected headerDataIncorrect.
Proof. by apply getDefinitions_guard. Defined.

(** X14.  Every field name that getDefinitions resolves with is trimmed:
    trimming it again changes nothing. *)
Theorem definitions_are_trimmed fileStr h defs :
  promise (getDefinitions fileStr (Some h)) = Fulfilled defs ->
  Forall (fun name => trim name = name) defs.
Proof.
  intros (definitionsStr & _ & _ & ->)%getDefinitions_fulfilled_inv.
  unfold definitionsOf.
  assert (Forall (fun name => trim name = name)
            (trim <$> split (getProperty h "EOF") definitionsStr)) as Hall.
  { apply Forall_fmap, Forall_forall. intros x _. cbn. apply trim_idem. }
  case_bool_decide; [by apply Forall_removelast | done].
Qed.

Lemma definitions_are_trimmed_witness :
  Forall (fun name => trim name = name) ["name"; "address"; "price"].
Proof.
  apply (definitions_are_trimmed terminatedFile
           {[ "EOF" := Some "|"; "EOR" := Some ";" ]}).
  vm_compute; reflexivity.
Defined.

(** *** The test of the path *)

(** X15.  A string passes validation exactly when it is some text that has
    at least one code unit other than a dot, then a dot, then [blm] in any
    mix of upper and lower case. *)
Theorem valid_paths s :
  isValid (VString s) = true
  <-> exists pre ext,
        s = pre +:+ "." +:+ ext
        /\ withoutUnit "." pre <> EmptyString
        /\ ext ∈ blmSpellings.
Proof.
  rewrite isValid_string. cbn zeta. cbn [split]. split.
  - intros [[Hlen Hpre]%andb_prop Hext]%andb_prop.
    destruct (hasUnit "." s) eqn:Hdot.
    2:{ by rewrite (splitScan_unit_absent _ _ Hdot) in Hlen. }
    destruct (last_unit_decompose _ _ Hdot) as (pre & ext & -> & Hfree).
    exists pre, ext. split; [done |].
    rewrite splitScan_unit_app, (splitScan_unit_absent _ _ Hfree) in Hpre, Hext.
    rewrite List.removelast_last, concat_splitScan, app_nil_l in Hpre.
    rewrite last_snoc in Hext. apply bool_decide_eq_true in Hext.
    split.
    + intros Hw. by rewrite Hw in Hpre.
    + apply toUpperCase_BLM. by injection Hext.
  - intros (pre & ext & -> & Hpre & Hext).
    assert (hasUnit "." ext = false) as Hfree.
    { unfold blmSpellings in Hext. rewrite !elem_of_cons, elem_of_nil in Hext.
      by destruct Hext as [-> | [-> | [-> | [-> | [-> | [-> | [-> | [-> | []]]]]]]]]. }
    apply toUpperCase_BLM in Hext.
    change (pre +:+ "." +:+ ext) with (pre +:+ String "." ext).
    rewrite splitScan_unit_app, (splitScan_unit_absent _ _ Hfree).
    rewrite List.removelast_last, concat_splitScan, app_nil_l, last_snoc.
    cbn [fmap option_fmap option_map]. rewrite Hext.
    rewrite bool_decide_eq_true_2, andb_true_r by done.
    apply andb_true_intro. split.
    + rewrite length_app. cbn [length].
      pose proof (splitScan_nonempty "." 0 pre).
      destruct (splitScan "." 0 pre); [done |]. cbn [length].
      by apply Nat.leb_le; lia.
    + destruct (withoutUnit "." pre); [done |]. reflexivity.
Qed.

(** *** The section patterns *)

(** X16.  The header and definition sections end at the first hash after
    their marker: what the pattern captures has no hash in it, and the text
    is some prefix, the marker, the captured section, a hash, and the
    rest. *)
Theorem lazy_sections_stop_at_hash fileStr g :
  (headerPattern fileStr = Some g ->
   hasUnit "#" g = false
   /\ exists pre post, fileStr = pre +:+ "#HEADER#" +:+ g +:+ "#" +:+ post)
  /\ (definitionPattern fileStr = Some g ->
      hasUnit "#" g = false
      /\ exists pre post,
           fileStr = pre +:+ "#DEFINITION#" +:+ g +:+ "#" +:+ post).
Proof.
  split; intros (pre & rest & -> & Hg)%exec_sound;
    apply lazyUntil_unit_sound in Hg as [Hfree [post ->]];
    (split; [done |]); by exists pre, post.
Qed.

Lemma lazy_sections_stop_at_hash_witness :
  (hasUnit "#" (LF +:+ "EOF:|" +:+ LF +:+ "EOR:;" +:+ LF) = false
   /\ exists pre post,
        terminatedFile
        = pre +:+ "#HEADER#" +:+ (LF +:+ "EOF:|" +:+ LF +:+ "EOR:;" +:+ LF)
              +:+ "#" +:+ post)
  /\ (hasUnit "#" (LF +:+ "name|address|price|;" +:+ LF) = false
      /\ exists pre post,
           terminatedFile
           = pre +:+ "#DEFINITION#" +:+ (LF +:+ "name|address|price|;" +:+ LF)
                 +:+ "#" +:+ post).
Proof.
  split.
  - apply (proj1 (lazy_sections_stop_at_hash terminatedFile
                    (LF +:+ "EOF:|" +:+ LF +:+ "EOR:;" +:+ LF))).
    vm_compute; reflexivity.
  - apply (proj2 (lazy_sections_stop_at_hash terminatedFile
                    (LF +:+ "name|address|price|;" +:+ LF))).
    vm_compute; reflexivity.
Defined.

(** X17.  Each stage finds its section whenever the text holds the markers:
    the header and definition patterns match any text that has their marker
    and a hash somewhere after it, and the data pattern matches any text
    that has the data marker and the end marker somewhere after it. *)
Theorem sections_found pre mid post :
  is_Some (headerPattern (pre +:+ "#HEADER#" +:+ mid +:+ "#" +:+ post))
  /\ is_Some (definitionPattern (pre +:+ "#DEFINITION#" +:+ mid +:+ "#" +:+ post))
  /\ is_Some (dataPattern (pre +:+ "#DATA#" +:+ mid +:+ "#END#" +:+ post)).
Proof.
  repeat split; apply exec_complete.
  - apply (lazyUntil_unit_complete "#").
  - apply (lazyUntil_unit_complete "#").
  - apply greedyUntil_complete.
Qed.

(** X18.  The data section runs from the data marker to the last end marker
    of the text: the text is some prefix, the marker, the captured section,
    the end marker and the rest, and no other way of cutting what follows
    the data marker at an end marker gives a longer section. *)
Theorem data_section_is_greedy fileStr g :
  dataPattern fileStr = Some g ->
  exists pre post,
    fileStr = pre +:+ "#DATA#" +:+ g +:+ "#END#" +:+ post
    /\ forall g' post',
         g +:+ "#END#" +:+ post = g' +:+ "#END#" +:+ post' ->
         String.length g' <= String.length g.
Proof.
  intros (pre & rest & -> & Hg)%exec_sound.
  destruct (greedyUntil_sound _ _ _ Hg) as [post ->].
  exists pre, post. split; [done |]. intros g' post' Heq.
  by apply (greedyUntil_longest _ _ _ _ _ Hg Heq).
Qed.

Lemma data_section_is_greedy_witness :
  exists pre post,
    twoEndsFile = pre +:+ "#DATA#" +:+ (LF +:+ "a#END#|;" +:+ LF) +:+ "#END#" +:+ post
    /\ forall g' post',
         (LF +:+ "a#END#|;" +:+ LF) +:+ "#END#" +:+ post = g' +:+ "#END#" +:+ post' ->
         String.length g' <= String.length (LF +:+ "a#END#|;" +:+ LF).
Proof.
  apply data_section_is_greedy. vm_compute; reflexivity.
Defined.

(** *** Round trips *)

(** X19.  A definition section made of field names each ended by the field
    separator, then the record separator, with any white space before the
    first name and after the record separator, gives back exactly the
    names, in order.  The separators are single code units that are not
    white space and differ from each other; the names are trimmed and hold
    no field separator. *)
Theorem definitions_round_trip fileStr h eof eor names lead trail :
  getProperty h "EOF" = Some (String eof EmptyString) ->
  getProperty h "EOR" = Some (String eor EmptyString) ->
  definitionPattern fileStr
  = Some (lead +:+ joinEnded eof names +:+ String eor trail) ->
  allWhiteSpace lead = true ->
  allWhiteSpace trail = true ->
  isWhiteSpace eof = false ->
  isWhiteSpace eor = false ->
  eof <> eor ->
  Forall (fun n => hasUnit eof n = false /\ trim n = n) names ->
  promise (getDefinitions fileStr (Some h)) = Fulfilled names.
Proof.
  intros Heof Heor Hm Hlead Htrail Hwf Hwr Hne Hnames.
  assert (headerIncomplete (Some h) = false) as Hc.
  { apply headerIncomplete_false. by eauto. }
  rewrite (getDefinitions_present _ _ _ Hc Hm). f_equal.
  unfold definitionsOf. rewrite Heof, Heor. cbn [split].
  rewrite (definition_pieces eof eor names lead trail) by done.
  rewrite last_snoc, bool_decide_eq_true_2 by done.
  apply List.removelast_last.
Qed.

Lemma definitions_round_trip_witness :
  promise (getDefinitions terminatedFile
             (Some {[ "EOF" := Some "|"; "EOR" := Some ";" ]}))
  = Fulfilled ["name"; "address"; "price"].
Proof.
  apply (definitions_round_trip terminatedFile _ "|" ";"
           ["name"; "address"; "price"] LF LF).
  - vm_compute; reflexivity.
  - vm_compute; reflexivity.
  - vm_compute; reflexivity.
  - vm_compute; reflexivity.
  - vm_compute; reflexivity.
  - vm_compute; reflexivity.
  - vm_compute; reflexivity.
  - discriminate.
  - repeat constructor.
Defined.





(** *** Read failures *)

(** X22.  For one call of parseBlmFile, made while no other call is in
    flight, a failed read is reported exactly when the handle converts to
    a string, whether or not the handle passes validation.  For such a
    handle, when the stream signals an error the callback is called once
    with an error whose message is the read message, which quotes the
    converted handle, and nothing of the stream's own failure; when
    opening the stream throws, the message of the exception follows the
    read message.  For a handle whose conversion throws (a symbol, an
    object without prototype or whose conversion method throws) a failed
    read is not reported: the callback is not called. *)
Theorem read_failure_reported readStream fileHandle :
  (forall shown,
      toString fileHandle = Normal shown ->
      (readStream fileHandle = StreamError ->
       delivered (parseBlmFile readStream fileHandle PlainFunction)
       = [CallbackError (mkError PlainError (readMessage shown))])
      /\ (forall cause,
            readStream fileHandle = CreateThrows cause ->
            delivered (parseBlmFile readStream fileHandle PlainFunction)
            = [CallbackError
                 (mkError PlainError (readMessage shown +:+ message cause))]))
  /\ (forall thrown,
        toString fileHandle = Throw thrown ->
        (forall fileStr, readStream fileHandle <> StreamEnd fileStr) ->
        delivered (parseBlmFile readStream fileHandle PlainFunction) = []).
Proof.
  split.
  - intros shown Hs.
    assert (streamMessage fileHandle = Normal (readMessage shown)) as Hmsg
      by (unfold streamMessage; by rewrite Hs).
    split.
    + intros Hr. rewrite parseBlmFile_delivered, streamInData_cases, Hr, Hmsg.
      unfold failure, composite. cbn [message]. by rewrite app_empty_r.
    + intros cause Hr.
      by rewrite parseBlmFile_delivered, streamInData_cases, Hr, Hmsg.
  - intros thrown Hs Hr.
    assert (streamMessage fileHandle = Throw thrown) as Hmsg
      by (unfold streamMessage; by rewrite Hs).
    rewrite parseBlmFile_delivered, streamInData_cases, Hmsg.
    destruct (readStream fileHandle) as [fileStr| |cause]; [| done | done].
    by destruct (Hr fileStr).
Qed.

Lemma read_failure_reported_witness :
  delivered (parseBlmFile (onDisk "feed.blm" terminatedFile)
               (VString "other.blm") PlainFunction)
  = [CallbackError (mkError PlainError (readMessage "other.blm"))]
  /\ delivered (parseBlmFile (onDisk "feed.blm" terminatedFile)
                  (VNumber "7") PlainFunction)
     = [CallbackError
          (mkError PlainError
             (readMessage "7"
                +:+ ("The " +:+ DQUOTE +:+ "path" +:+ DQUOTE
                       +:+ " argument must be of type string or an instance of Buffer or URL."
                       +:+ " Received type number (7)")))]
  /\ delivered (parseBlmFile (onDisk "feed.blm" terminatedFile)
                  (VSymbol "feed.blm") PlainFunction)
     = [].
Proof.
  split; [| split].
  - destruct (proj1 (read_failure_reported (onDisk "feed.blm" terminatedFile)
                       (VString "other.blm")) "other.blm") as [H _].
    + vm_compute; reflexivity.
    + apply H. vm_compute; reflexivity.
  - destruct (proj1 (read_failure_reported (onDisk "feed.blm" terminatedFile)
                       (VNumber "7")) "7") as [_ H].
    + vm_compute; reflexivity.
    + apply (H (mkError TypeError
                  ("The " +:+ DQUOTE +:+ "path" +:+ DQUOTE
                     +:+ " argument must be of type string or an instance of Buffer or URL."
                     +:+ " Received type number (7)"))).
      vm_compute; reflexivity.
  - apply (proj2 (read_failure_reported (onDisk "feed.blm" terminatedFile)
                    (VSymbol "feed.blm"))
             (mkError TypeError "Cannot convert a Symbol value to a string")).
    + vm_compute; reflexivity.
    + intros fileStr. vm_compute. discriminate.
Defined.

End Extras.
